(** * UTXO transaction validator

    A shallow embedding of [TransactionValidator] (file
    [src/transaction-validator.ts]) and of the earlier variant of the same
    class, together with the properties of the validation routine and of the
    signing-data derivation.

    The routine is embedded twice.
    - On typed records. JavaScript numbers that hold amounts, output indices
      and timestamps are integers ([Z]) with exact arithmetic; [String(n)]
      and [JSON.stringify(n)] of an integer are its decimal numeral
      ([pretty]); the objects of a transaction are records, written with
      their properties in the order of the declarations. This is the routine
      on the transactions of the declared types whose numbers, running
      totals included, are integers of magnitude below 2^53.
    - On JavaScript values (module [Js]). Numbers are doubles, objects are
      lists of properties in their own order, and the text of a number is a
      parameter. What depends on rounding or on the order of the properties
      of an object is stated on this embedding; the last part shows that the
      two embeddings return the same result in the range of the first.

    In both:
    - JavaScript strings are [string]s (sequences of bytes).
    - The method body mutates its local variables ([errors], [used],
      [totalInput], [totalOutput]) and reads the field [utxoPool]; all of
      them live in a [Frame], and the body is written in a state monad over
      that frame. *)

From stdpp Require Import base decidable option list strings pretty gmap.
From Stdlib Require Import ZArith Ascii Lia.
From Stdlib Require Import Floats.SpecFloat.

Set Warnings "-register-all".

Local Open Scope Z_scope.

(** ** Data model (module [types]) *)

(** Modelled from the spec: the declarations of [./types] are not part of the
    sources at hand; the fields are the ones the validator reads. *)
Record UtxoId := mkUtxoId { txId : string; outputIndex : Z }.

Record TransactionInput := mkInput {
  utxoId : UtxoId;
  owner : string;
  signature : string
}.

Record TransactionOutput := mkOutput {
  recipient : string;
  amount : Z
}.

Record Transaction := mkTransaction {
  id : string;
  inputs : list TransactionInput;
  outputs : list TransactionOutput;
  timestamp : Z
}.

(** A pool entry: origin transaction id and output index, owner, amount. *)
Record UTXO := mkUTXO {
  utxo_id : UtxoId;
  utxo_owner : string;
  utxo_amount : Z
}.

(** ** Errors (module [errors]) *)

(** Modelled from the spec: the closed enumeration of error kinds and the
    constructor of [./errors]. *)
Inductive VALIDATION_ERRORS :=
  | EMPTY_INPUTS
  | EMPTY_OUTPUTS
  | DOUBLE_SPENDING
  | UTXO_NOT_FOUND
  | INVALID_SIGNATURE
  | AMOUNT_MISMATCH
  | NEGATIVE_AMOUNT.

Record ValidationError := mkError {
  kind : VALIDATION_ERRORS;
  message : string
}.

Definition createValidationError (k : VALIDATION_ERRORS) (m : string)
  : ValidationError := {| kind := k; message := m |}.

Record ValidationResult := mkResult {
  valid : bool;
  errors : list ValidationError
}.

#[global] Instance UtxoId_eq_dec : EqDecision UtxoId.
Proof. solve_decision. Defined.
#[global] Instance TransactionInput_eq_dec : EqDecision TransactionInput.
Proof. solve_decision. Defined.
#[global] Instance TransactionOutput_eq_dec : EqDecision TransactionOutput.
Proof. solve_decision. Defined.
#[global] Instance VALIDATION_ERRORS_eq_dec : EqDecision VALIDATION_ERRORS.
Proof. solve_decision. Defined.
#[global] Instance ValidationError_eq_dec : EqDecision ValidationError.
Proof. solve_decision. Defined.

(** ** The pool (module [utxo-pool]) *)

(** Modelled from the spec: [UTXOPoolManager] is an external collaborator with
    one read operation, [lookup(originTxId, outputIndex) -> UTXO | absent].
    The pool is a finite map from (transaction id, output index). *)
Abbreviation UTXOPoolManager := (gmap (string * Z) UTXO).

(** ** JSON values and [JSON.stringify] *)

Inductive json :=
  | JNum (n : Z)
  | JStr (s : string)
  | JArr (l : list json)
  | JObj (fields : list (string * json)).

Definition hex_digit (n : N) : ascii :=
  match n with
  | 0 => "0" | 1 => "1" | 2 => "2" | 3 => "3" | 4 => "4" | 5 => "5"
  | 6 => "6" | 7 => "7" | 8 => "8" | 9 => "9" | 10 => "a" | 11 => "b"
  | 12 => "c" | 13 => "d" | 14 => "e" | _ => "f"
  end%char%N.

Definition backslash : ascii := ascii_of_N 92.

(** One code unit of a quoted JSON string (ECMAScript [QuoteJSONString]):
    the short escapes, the two characters that must be escaped, the other
    control characters as four hexadecimal digits, and every other code unit
    as it is. *)
Definition quote_char (c : ascii) : string :=
  let n := N_of_ascii c in
  if (n =? 8)%N then String backslash "b"
  else if (n =? 9)%N then String backslash "t"
  else if (n =? 10)%N then String backslash "n"
  else if (n =? 12)%N then String backslash "f"
  else if (n =? 13)%N then String backslash "r"
  else if (n =? 34)%N then String backslash (String c EmptyString)
  else if (n =? 92)%N then String backslash (String backslash EmptyString)
  else if (n <? 32)%N then
    String backslash
      ("u00" +:+ String (hex_digit (n / 16))
                   (String (hex_digit (n mod 16)) EmptyString))
  else String c EmptyString.

Fixpoint quote_chars (s : string) : string :=
  match s with
  | EmptyString => EmptyString
  | String c s' => quote_char c +:+ quote_chars s'
  end.

Definition dquote : ascii := ascii_of_N 34.

Definition quote (s : string) : string :=
  String dquote (quote_chars s +:+ String dquote EmptyString).

Fixpoint join (sep : string) (l : list string) : string :=
  match l with
  | [] => EmptyString
  | [x] => x
  | x :: l' => x +:+ sep +:+ join sep l'
  end.

(** [JSON.stringify] on the values that occur here: integers as decimal
    numerals, quoted strings, arrays and objects without white space, the
    members of an object in the order of its keys. *)
Fixpoint stringify (j : json) : string :=
  match j with
  | JNum n => pretty n
  | JStr s => quote s
  | JArr l => "[" +:+ join "," (List.map stringify l) +:+ "]"
  | JObj fs =>
      "{" +:+ join "," (List.map (λ kv, quote kv.1 +:+ ":" +:+ stringify kv.2) fs)
          +:+ "}"
  end.

(** ** The frame of one call and its state monad *)

(** [utxoPool] is the field of the validator object; the other components are
    the local variables of [validateTransaction]. *)
Record Frame := mkFrame {
  utxoPool : UTXOPoolManager;
  errors_ : list ValidationError;
  used : list string;
  totalInput : Z;
  totalOutput : Z
}.

Definition M (A : Type) : Type := Frame → A * Frame.

#[global] Instance M_ret : MRet M := λ A a st, (a, st).
#[global] Instance M_bind : MBind M :=
  λ A B f m st, let '(a, st') := m st in f a st'.

(** [errors.push(e)] *)
Definition errors_push (e : ValidationError) : M unit := λ st,
  (tt, mkFrame (utxoPool st) (errors_ st ++ [e]) (used st)
               (totalInput st) (totalOutput st)).

(** [used.includes(k)] *)
Definition used_includes (k : string) : M bool := λ st,
  (bool_decide (k ∈ used st), st).

(** [used.push(k)] *)
Definition used_push (k : string) : M unit := λ st,
  (tt, mkFrame (utxoPool st) (errors_ st) (used st ++ [k])
               (totalInput st) (totalOutput st)).

(** [totalInput += n] *)
Definition totalInput_add (n : Z) : M unit := λ st,
  (tt, mkFrame (utxoPool st) (errors_ st) (used st)
               (totalInput st + n) (totalOutput st)).

(** [totalOutput += n] *)
Definition totalOutput_add (n : Z) : M unit := λ st,
  (tt, mkFrame (utxoPool st) (errors_ st) (used st)
               (totalInput st) (totalOutput st + n)).

Definition read {A} (f : Frame → A) : M A := λ st, (f st, st).

(** Modelled from the spec: [this.utxoPool.getUTXO(txId, outputIndex)] is a
    pure read of the pool; it yields the entry or nothing. *)
Definition getUTXO (t : string) (i : Z) : M (option UTXO) := λ st,
  (utxoPool st !! (t, i), st).

(** [if (c) { body }] *)
Definition when (c : bool) (body : M unit) : M unit :=
  if c then body else mret tt.

(** [for (const x of l) { body }] *)
Fixpoint for_of {A} (l : list A) (body : A → M unit) : M unit :=
  match l with
  | [] => mret tt
  | x :: l' => body x ;; for_of l' body
  end.

(** ** The validator *)

(** The object built by [createTransactionDataForSigning_]: the id, for every
    input a fresh object with its [utxoId] and [owner] (the signature is left
    out), the outputs as they are, and the timestamp. Modelled from the spec:
    the keys of the [utxoId] objects and of the outputs come in the order of
    the declarations above. *)
Definition unsignedTx (transaction : Transaction) : json :=
  JObj [
    ("id", JStr (id transaction));
    ("inputs", JArr (List.map (λ input,
        JObj [
          ("utxoId", JObj [("txId", JStr (txId (utxoId input)));
                           ("outputIndex", JNum (outputIndex (utxoId input)))]);
          ("owner", JStr (owner input))
        ]) (inputs transaction)));
    ("outputs", JArr (List.map (λ output,
        JObj [("recipient", JStr (recipient output));
              ("amount", JNum (amount output))]) (outputs transaction)));
    ("timestamp", JNum (timestamp transaction))
  ].

Definition createTransactionDataForSigning_ (transaction : Transaction)
  : string := stringify (unsignedTx transaction).

(** The template literal of the duplicate check. *)
Definition utxoKey (input : TransactionInput) : string :=
  txId (utxoId input) +:+ ":" +:+ pretty (outputIndex (utxoId input)).

(** The text [txId=..., outputIndex=...] that the three messages about an
    input end with. *)
Definition ref_text (input : TransactionInput) : string :=
  "txId=" +:+ txId (utxoId input) +:+ ", outputIndex="
          +:+ pretty (outputIndex (utxoId input)).

Section Validator.

(** [verify(message, signature, publicKey)] of [./utils/crypto], a black
    box that answers yes or no. *)
Variable verify : string → string → string → bool.

Definition validateTransaction_body (transaction : Transaction)
  : M ValidationResult :=
  when (bool_decide (length (inputs transaction) = 0%nat))
    (errors_push (createValidationError EMPTY_INPUTS
       "La transacción no tiene entradas")) ;;
  when (bool_decide (length (outputs transaction) = 0%nat))
    (errors_push (createValidationError EMPTY_OUTPUTS
       "La transacción no tiene salidas")) ;;
  for_of (inputs transaction) (λ input,
    let utxoKey := utxoKey input in
    seen ← used_includes utxoKey;
    when seen
      (errors_push (createValidationError DOUBLE_SPENDING
         ("UTXO duplicado: " +:+ ref_text input))) ;;
    used_push utxoKey) ;;
  for_of (inputs transaction) (λ input,
    utxo ← getUTXO (txId (utxoId input)) (outputIndex (utxoId input));
    match utxo with
    | None =>
        errors_push (createValidationError UTXO_NOT_FOUND
          ("UTXO no encontrado para " +:+ ref_text input))
    | Some utxo =>
        totalInput_add (utxo_amount utxo) ;;
        let transactionData := createTransactionDataForSigning_ transaction in
        let isValid := verify transactionData (signature input) (owner input) in
        when (negb isValid)
          (errors_push (createValidationError INVALID_SIGNATURE
             ("Firma inválida para input de " +:+ ref_text input)))
    end) ;;
  for_of (outputs transaction) (λ output,
    totalOutput_add (amount output)) ;;
  ti ← read totalInput;
  to ← read totalOutput;
  when (negb (ti =? to))
    (errors_push (createValidationError AMOUNT_MISMATCH
       ("Suma de entradas (" +:+ pretty ti
          +:+ ") no coincide con suma de salidas (" +:+ pretty to +:+ ")"))) ;;
  for_of (outputs transaction) (λ output,
    totalOutput_add (amount output) ;;
    when (amount output <=? 0)
      (errors_push (createValidationError NEGATIVE_AMOUNT
         ("Output inválido con monto " +:+ pretty (amount output)
            +:+ " para recipient=" +:+ recipient output)))) ;;
  errs ← read errors_;
  mret {| valid := bool_decide (length errs = 0%nat); errors := errs |}.

(** A call of the method on a validator whose field holds [pool]: the
    result, and the pool afterwards. *)
Definition validateTransaction (transaction : Transaction)
    (pool : UTXOPoolManager) : ValidationResult * UTXOPoolManager :=
  let '(r, st) := validateTransaction_body transaction
                    (mkFrame pool [] [] 0 0) in
  (r, utxoPool st).

End Validator.

(** ** The variant validator (the second source file of the class) *)

Module Variant.
Section Validator.

Variable verify : string → string → string → bool.

Definition validateTransaction_body (transaction : Transaction)
  : M ValidationResult :=
  when (bool_decide (length (inputs transaction) = 0%nat))
    (errors_push (createValidationError EMPTY_INPUTS
       "La transacción no tiene entradas")) ;;
  when (bool_decide (length (outputs transaction) = 0%nat))
    (errors_push (createValidationError EMPTY_OUTPUTS
       "La transacción no tiene salidas")) ;;
  for_of (inputs transaction) (λ input,
    utxo ← getUTXO (txId (utxoId input)) (outputIndex (utxoId input));
    match utxo with
    | None =>
        errors_push (createValidationError UTXO_NOT_FOUND
          ("UTXO no encontrado para " +:+ ref_text input))
    | Some utxo =>
        totalInput_add (utxo_amount utxo) ;;
        let txDataToSign := createTransactionDataForSigning_ transaction in
        let isValidSignature :=
          verify txDataToSign (signature input) (owner input) in
        when (negb isValidSignature)
          (errors_push (createValidationError INVALID_SIGNATURE
             ("Firma inválida para input de " +:+ ref_text input)))
    end) ;;
  for_of (outputs transaction) (λ output,
    totalOutput_add (amount output)) ;;
  ti ← read totalInput;
  to ← read totalOutput;
  when (negb (ti =? to))
    (errors_push (createValidationError AMOUNT_MISMATCH
       ("Suma de entradas (" +:+ pretty ti
          +:+ ") no coincide con suma de salidas (" +:+ pretty to +:+ ")"))) ;;
  errs ← read errors_;
  mret {| valid := bool_decide (length errs = 0%nat); errors := errs |}.

Definition validateTransaction (transaction : Transaction)
    (pool : UTXOPoolManager) : ValidationResult * UTXOPoolManager :=
  let '(r, st) := validateTransaction_body transaction
                    (mkFrame pool [] [] 0 0) in
  (r, utxoPool st).

End Validator.
End Variant.

(** ** What each step of the method does to the frame *)

Definition emptyInputsError : ValidationError :=
  createValidationError EMPTY_INPUTS "La transacción no tiene entradas".
Definition emptyOutputsError : ValidationError :=
  createValidationError EMPTY_OUTPUTS "La transacción no tiene salidas".
Definition doubleSpendingError (input : TransactionInput) : ValidationError :=
  createValidationError DOUBLE_SPENDING ("UTXO duplicado: " +:+ ref_text input).
Definition notFoundError (input : TransactionInput) : ValidationError :=
  createValidationError UTXO_NOT_FOUND
    ("UTXO no encontrado para " +:+ ref_text input).
Definition invalidSignatureError (input : TransactionInput) : ValidationError :=
  createValidationError INVALID_SIGNATURE
    ("Firma inválida para input de " +:+ ref_text input).
Definition amountMismatchError (ti to : Z) : ValidationError :=
  createValidationError AMOUNT_MISMATCH
    ("Suma de entradas (" +:+ pretty ti
       +:+ ") no coincide con suma de salidas (" +:+ pretty to +:+ ")").
Definition negativeAmountError (output : TransactionOutput) : ValidationError :=
  createValidationError NEGATIVE_AMOUNT
    ("Output inválido con monto " +:+ pretty (amount output)
       +:+ " para recipient=" +:+ recipient output).

(** The pool entry an input refers to. *)
Definition resolve (pool : UTXOPoolManager) (input : TransactionInput)
  : option UTXO :=
  pool !! (txId (utxoId input), outputIndex (utxoId input)).

(** Errors of the two structural tests. *)
Definition structuralErrors (transaction : Transaction)
  : list ValidationError :=
  (if bool_decide (length (inputs transaction) = 0%nat)
   then [emptyInputsError] else [])
  ++ (if bool_decide (length (outputs transaction) = 0%nat)
      then [emptyOutputsError] else []).

(** Errors of the duplicate loop, started with [seen] in [used]. *)
Fixpoint duplicateErrors (seen : list string) (l : list TransactionInput)
  : list ValidationError :=
  match l with
  | [] => []
  | input :: l' =>
      (if bool_decide (utxoKey input ∈ seen)
       then [doubleSpendingError input] else [])
      ++ duplicateErrors (seen ++ [utxoKey input]) l'
  end.

(** Sum of the amounts of the entries found for the inputs, one term per
    input. *)
Definition inputTotal (pool : UTXOPoolManager) (l : list TransactionInput)
  : Z :=
  foldr Z.add 0 (omap (λ input, utxo_amount <$> resolve pool input) l).

Definition outputTotal (l : list TransactionOutput) : Z :=
  foldr Z.add 0 (amount <$> l).

Definition balanceErrors (ti to : Z) : list ValidationError :=
  if negb (ti =? to) then [amountMismatchError ti to] else [].

Definition negativeErrors (l : list TransactionOutput)
  : list ValidationError :=
  negativeAmountError <$> filter (λ output, amount output ≤ 0) l.

Section Characterisation.

Variable verify : string → string → string → bool.

(** Error of the resolution loop for one input, if any. *)
Definition inputError (transaction : Transaction) (pool : UTXOPoolManager)
    (input : TransactionInput) : option ValidationError :=
  match resolve pool input with
  | None => Some (notFoundError input)
  | Some _ =>
      if verify (createTransactionDataForSigning_ transaction)
                (signature input) (owner input)
      then None else Some (invalidSignatureError input)
  end.

Definition inputErrors (transaction : Transaction) (pool : UTXOPoolManager)
    (l : list TransactionInput) : list ValidationError :=
  omap (inputError transaction pool) l.

(** The whole error list, in the order of the pushes. *)
Definition allErrors (transaction : Transaction) (pool : UTXOPoolManager)
  : list ValidationError :=
  structuralErrors transaction
  ++ duplicateErrors [] (inputs transaction)
  ++ inputErrors transaction pool (inputs transaction)
  ++ balanceErrors (inputTotal pool (inputs transaction))
                   (outputTotal (outputs transaction))
  ++ negativeErrors (outputs transaction).

End Characterisation.

(** ** Text of numerals *)

Definition chars (s : string) : list ascii := String.list_ascii_of_string s.

Definition numeral_char (c : ascii) : Prop := c ∈ chars "-0123456789".

(** ** Vocabulary of the properties *)

(** The errors of one kind, in the order of the list. *)
Definition ofKind (k : VALIDATION_ERRORS) (l : list ValidationError)
  : list ValidationError :=
  filter (λ e, kind e = k) l.

(** Every entry of kind [k1] stands before every entry of kind [k2]. *)
Definition precedes (k1 k2 : VALIDATION_ERRORS) (l : list ValidationError)
  : Prop :=
  ∀ i j e1 e2, l !! i = Some e1 → l !! j = Some e2 →
    kind e1 = k1 → kind e2 = k2 → (i < j)%nat.

(** The place of each kind in the order in which the method runs its
    checks. *)
Definition phase (k : VALIDATION_ERRORS) : nat :=
  match k with
  | EMPTY_INPUTS => 0
  | EMPTY_OUTPUTS => 1
  | DOUBLE_SPENDING => 2
  | UTXO_NOT_FOUND => 3
  | INVALID_SIGNATURE => 3
  | AMOUNT_MISMATCH => 4
  | NEGATIVE_AMOUNT => 5
  end.

(** Errors of the variant validator, in the order of its pushes. *)
Definition variantErrors (verify : string → string → string → bool)
    (transaction : Transaction) (pool : UTXOPoolManager)
  : list ValidationError :=
  structuralErrors transaction
  ++ inputErrors verify transaction pool (inputs transaction)
  ++ balanceErrors (inputTotal pool (inputs transaction))
                   (outputTotal (outputs transaction)).

(** The kinds never step back to an earlier check. *)
Definition inPhaseOrder (l : list ValidationError) : Prop :=
  ∀ i j e1 e2, l !! i = Some e1 → l !! j = Some e2 → (i < j)%nat →
    (phase (kind e1) ≤ phase (kind e2))%nat.

(** ** Repeated references, by position *)

(** The input at position [j] refers to an output that an earlier input of
    the list refers to. *)
Definition is_repeat (l : list TransactionInput) (j : nat) : bool :=
  match l !! j with
  | Some x => bool_decide (utxoId x ∈ (utxoId <$> take j l))
  | None => false
  end.

(** The positions of the repeated references, in input order. *)
Definition repeat_positions (l : list TransactionInput) : list nat :=
  filter (λ j, is_repeat l j = true) (seq 0 (length l)).

(** The input at position [j] refers to the output [k]. *)
Definition refersTo (l : list TransactionInput) (k : UtxoId) (j : nat)
  : Prop :=
  utxoId <$> l !! j = Some k.

#[global] Instance refersTo_dec l k j : Decision (refersTo l k j).
Proof. unfold refersTo. apply _. Defined.

(** ** Concrete scenarios *)

(** A stand-in for the signature scheme: the signature of a message under a
    key is the key followed by the message. *)
Definition toy_sign (message key : string) : string :=
  key +:+ "|" +:+ message.
Definition toy_verify (message sig key : string) : bool :=
  bool_decide (sig = toy_sign message key).

(** The pool of the scenarios: one entry, output 0 of transaction "A", owned
    by "K", amount 10. *)
Definition poolA : UTXOPoolManager :=
  {[ ("A", 0) := mkUTXO (mkUtxoId "A" 0) "K" 10 ]}.

Definition spendA (sig : string) : TransactionInput :=
  mkInput (mkUtxoId "A" 0) "K" sig.

(** One input, one output of 10. *)
Definition txSingle (sig : string) : Transaction :=
  mkTransaction "T1" [spendA sig] [mkOutput "R" 10] 1700000000.
Definition sigSingle : string :=
  toy_sign (createTransactionDataForSigning_ (txSingle EmptyString)) "K".
Definition txSingleSigned : Transaction := txSingle sigSingle.

(** The same output spent twice, two outputs of 10. *)
Definition txTwice (sig : string) : Transaction :=
  mkTransaction "T2" [spendA sig; spendA sig]
    [mkOutput "R" 10; mkOutput "S" 10] 1700000000.
Definition sigTwice : string :=
  toy_sign (createTransactionDataForSigning_ (txTwice EmptyString)) "K".
Definition txTwiceSigned : Transaction := txTwice sigTwice.

(** No input, one output of -5. *)
Definition txNegative : Transaction :=
  mkTransaction "T3" [] [mkOutput "R" (-5)] 1700000000.

(** A spend of the pool entry followed by an input that refers to an output
    the pool does not have; one output of 10. *)
Definition spendMissing : TransactionInput :=
  mkInput (mkUtxoId "B" 1) "K" "none".
Definition txMissing (sig : string) : Transaction :=
  mkTransaction "T4" [spendA sig; spendMissing] [mkOutput "R" 10] 1700000000.
Definition sigMissing : string :=
  toy_sign (createTransactionDataForSigning_ (txMissing EmptyString)) "K".
Definition txMissingSigned : Transaction := txMissing sigMissing.

(** ** Reading quoted text back *)

Definition unhex (c : ascii) : option N :=
  let n := N_of_ascii c in
  if ((48 <=? n) && (n <=? 57))%N then Some (n - 48)%N
  else if ((97 <=? n) && (n <=? 102))%N then Some (n - 87)%N
  else None.

(** Reads one quoted code unit from the front of a text: the inverse of
    [quote_char]. A double quote ends the quoted text. *)
Definition unquote_char (s : string) : option (ascii * string) :=
  match s with
  | EmptyString => None
  | String c r =>
      if (N_of_ascii c =? 92)%N then
        match r with
        | String e r' =>
            let n := N_of_ascii e in
            if (n =? 98)%N then Some (ascii_of_N 8, r')
            else if (n =? 116)%N then Some (ascii_of_N 9, r')
            else if (n =? 110)%N then Some (ascii_of_N 10, r')
            else if (n =? 102)%N then Some (ascii_of_N 12, r')
            else if (n =? 114)%N then Some (ascii_of_N 13, r')
            else if (n =? 34)%N then Some (ascii_of_N 34, r')
            else if (n =? 92)%N then Some (ascii_of_N 92, r')
            else if (n =? 117)%N then
              match r' with
              | String _ (String _ (String h (String l r''))) =>
                  match unhex h, unhex l with
                  | Some x, Some y => Some (ascii_of_N (16 * x + y), r'')
                  | _, _ => None
                  end
              | _ => None
              end
            else None
        | EmptyString => None
        end
      else if (N_of_ascii c =? 34)%N then None
      else Some (c, r)
  end.

(** The members of a list after the first, each behind a comma, before the
    rest of the text. *)
Fixpoint items (l : list string) (r : string) : string :=
  match l with
  | [] => r
  | x :: l' => "," +:+ x +:+ items l' r
  end.

(** A transaction with no input and no output. *)
Definition txEmpty : Transaction := mkTransaction "T0" [] [] 1700000000.

(** A pool that records another owner for output 0 of "A", with the same
    amount, and holds one more entry. *)
Definition poolB : UTXOPoolManager :=
  <[ ("C", 3) := mkUTXO (mkUtxoId "C" 3) "L" 7 ]>
    {[ ("A", 0) := mkUTXO (mkUtxoId "A" 0) "Z" 10 ]}.

(** A signature check that differs from [toy_verify] on the empty message
    only. *)
Definition toy_verify_lax (message sig key : string) : bool :=
  if bool_decide (message = EmptyString) then true
  else toy_verify message sig key.

(** * The validator on JavaScript values

    The second embedding keeps what the first one idealizes. Numbers are IEEE
    754 binary64 values ([spec_float] with 53 bits of precision): [+] is
    [SFadd], [!=] and [<=] are the comparisons of doubles. The objects that
    the code passes on as they are (the [utxoId] of an input, the outputs)
    are JavaScript objects: lists of properties in their own order. The text
    of a number ([String(n)], the template literals, [JSON.stringify]) is the
    ECMAScript built-in [Number::toString], a parameter of the validator.

    The transactions are those of the declared type: the model says nothing
    of reads of absent or ill-typed properties beyond the defaults below. *)

Module Js.

Abbreviation number := spec_float.

Definition zero : number := S754_zero false.

(** [x + y] *)
Definition add (x y : number) : number := SFadd 53 1024 x y.

(** [x != y] *)
Definition neq (x y : number) : bool := negb (SFeqb x y).

(** [x <= 0] *)
Definition le_zero (x : number) : bool := SFleb x zero.

(** The double nearest to an integer; the integer itself when its magnitude
    is below 2^53. *)
Definition of_Z (z : Z) : number := binary_normalize 53 1024 z 0 false.

(** The integers that doubles hold exactly ([Number.MAX_SAFE_INTEGER] is
    2^53 - 1). *)
Definition safe (z : Z) : Prop := Z.abs z < 2 ^ 53.

Inductive value :=
  | VNum (n : number)
  | VStr (s : string)
  | VArr (l : list value)
  | VObj (props : list (string * value)).

Fixpoint lookup_prop (k : string) (props : list (string * value))
  : option value :=
  match props with
  | [] => None
  | (k', v) :: props' =>
      if decide (k = k') then Some v else lookup_prop k props'
  end.

(** [o.k] *)
Definition prop (k : string) (o : value) : option value :=
  match o with
  | VObj props => lookup_prop k props
  | _ => None
  end.

(** [o.k] where the type declares a string. *)
Definition string_prop (k : string) (o : value) : string :=
  match prop k o with
  | Some (VStr s) => s
  | _ => "undefined"
  end.

(** [o.k] where the type declares a number. *)
Definition number_prop (k : string) (o : value) : number :=
  match prop k o with
  | Some (VNum n) => n
  | _ => S754_nan
  end.

(** Modelled from the spec: the declarations of [./types]. An input holds
    its [utxoId] object, and a transaction its output objects, as the caller
    built them. *)
Record TransactionInput := mkInput {
  utxoId : value;
  owner : string;
  signature : string
}.

Record Transaction := mkTransaction {
  id : string;
  inputs : list TransactionInput;
  outputs : list value;
  timestamp : number
}.

Record UTXO := mkUTXO {
  utxo_owner : string;
  utxo_amount : number
}.

(** Modelled from the spec: the pool is its one read operation,
    [getUTXO(txId, outputIndex)]. *)
Definition UTXOPoolManager : Type := string → number → option UTXO.

Record Frame := mkFrame {
  utxoPool : UTXOPoolManager;
  errors_ : list ValidationError;
  used : list string;
  totalInput : number;
  totalOutput : number
}.

Definition M (A : Type) : Type := Frame → A * Frame.

#[global] Instance M_ret : MRet M := λ A a st, (a, st).
#[global] Instance M_bind : MBind M :=
  λ A B f m st, let '(a, st') := m st in f a st'.

Definition errors_push (e : ValidationError) : M unit := λ st,
  (tt, mkFrame (utxoPool st) (errors_ st ++ [e]) (used st)
               (totalInput st) (totalOutput st)).

Definition used_includes (k : string) : M bool := λ st,
  (bool_decide (k ∈ used st), st).

Definition used_push (k : string) : M unit := λ st,
  (tt, mkFrame (utxoPool st) (errors_ st) (used st ++ [k])
               (totalInput st) (totalOutput st)).

Definition totalInput_add (n : number) : M unit := λ st,
  (tt, mkFrame (utxoPool st) (errors_ st) (used st)
               (add (totalInput st) n) (totalOutput st)).

Definition totalOutput_add (n : number) : M unit := λ st,
  (tt, mkFrame (utxoPool st) (errors_ st) (used st)
               (totalInput st) (add (totalOutput st) n)).

Definition read {A} (f : Frame → A) : M A := λ st, (f st, st).

Definition getUTXO (t : string) (i : number) : M (option UTXO) := λ st,
  (utxoPool st t i, st).

Definition when (c : bool) (body : M unit) : M unit :=
  if c then body else mret tt.

Fixpoint for_of {A} (l : list A) (body : A → M unit) : M unit :=
  match l with
  | [] => mret tt
  | x :: l' => body x ;; for_of l' body
  end.

Section Validator.

(** [verify] of [./utils/crypto] and the text of a number. *)
Variable verify : string → string → string → bool.
Variable Number_toString : number → string.

(** [JSON.stringify] of a number: the text of a finite number, [null] for
    the others. *)
Definition number_json (n : number) : string :=
  match n with
  | S754_nan | S754_infinity _ => "null"
  | _ => Number_toString n
  end.

Fixpoint stringify (v : value) : string :=
  match v with
  | VNum n => number_json n
  | VStr s => quote s
  | VArr l => "[" +:+ join "," (List.map stringify l) +:+ "]"
  | VObj props =>
      "{" +:+ join ","
                (List.map (λ kv, quote kv.1 +:+ ":" +:+ stringify kv.2) props)
          +:+ "}"
  end.

Definition unsignedTx (transaction : Transaction) : value :=
  VObj [
    ("id", VStr (id transaction));
    ("inputs", VArr (List.map (λ input,
        VObj [("utxoId", utxoId input); ("owner", VStr (owner input))])
      (inputs transaction)));
    ("outputs", VArr (outputs transaction));
    ("timestamp", VNum (timestamp transaction))
  ].

Definition createTransactionDataForSigning_ (transaction : Transaction)
  : string := stringify (unsignedTx transaction).

(** [input.utxoId.txId] and [input.utxoId.outputIndex] *)
Definition txId (input : TransactionInput) : string :=
  string_prop "txId" (utxoId input).
Definition outputIndex (input : TransactionInput) : number :=
  number_prop "outputIndex" (utxoId input).

(** [output.amount] and [output.recipient] *)
Definition amount (output : value) : number := number_prop "amount" output.
Definition recipient (output : value) : string :=
  string_prop "recipient" output.

Definition utxoKey (input : TransactionInput) : string :=
  txId input +:+ ":" +:+ Number_toString (outputIndex input).

Definition ref_text (input : TransactionInput) : string :=
  "txId=" +:+ txId input +:+ ", outputIndex="
          +:+ Number_toString (outputIndex input).

Definition validateTransaction_body (transaction : Transaction)
  : M ValidationResult :=
  when (bool_decide (length (inputs transaction) = 0%nat))
    (errors_push (createValidationError EMPTY_INPUTS
       "La transacción no tiene entradas")) ;;
  when (bool_decide (length (outputs transaction) = 0%nat))
    (errors_push (createValidationError EMPTY_OUTPUTS
       "La transacción no tiene salidas")) ;;
  for_of (inputs transaction) (λ input,
    let utxoKey := utxoKey input in
    seen ← used_includes utxoKey;
    when seen
      (errors_push (createValidationError DOUBLE_SPENDING
         ("UTXO duplicado: " +:+ ref_text input))) ;;
    used_push utxoKey) ;;
  for_of (inputs transaction) (λ input,
    utxo ← getUTXO (txId input) (outputIndex input);
    match utxo with
    | None =>
        errors_push (createValidationError UTXO_NOT_FOUND
          ("UTXO no encontrado para " +:+ ref_text input))
    | Some utxo =>
        totalInput_add (utxo_amount utxo) ;;
        let transactionData := createTransactionDataForSigning_ transaction in
        let isValid := verify transactionData (signature input) (owner input) in
        when (negb isValid)
          (errors_push (createValidationError INVALID_SIGNATURE
             ("Firma inválida para input de " +:+ ref_text input)))
    end) ;;
  for_of (outputs transaction) (λ output,
    totalOutput_add (amount output)) ;;
  ti ← read totalInput;
  to ← read totalOutput;
  when (neq ti to)
    (errors_push (createValidationError AMOUNT_MISMATCH
       ("Suma de entradas (" +:+ Number_toString ti
          +:+ ") no coincide con suma de salidas (" +:+ Number_toString to
          +:+ ")"))) ;;
  for_of (outputs transaction) (λ output,
    totalOutput_add (amount output) ;;
    when (le_zero (amount output))
      (errors_push (createValidationError NEGATIVE_AMOUNT
         ("Output inválido con monto " +:+ Number_toString (amount output)
            +:+ " para recipient=" +:+ recipient output)))) ;;
  errs ← read errors_;
  mret {| valid := bool_decide (length errs = 0%nat); errors := errs |}.

Definition validateTransaction (transaction : Transaction)
    (pool : UTXOPoolManager) : ValidationResult * UTXOPoolManager :=
  let '(r, st) := validateTransaction_body transaction
                    (mkFrame pool [] [] zero zero) in
  (r, utxoPool st).

End Validator.

(** The variant validator (the second source file of the class). *)
Module Variant.
Section Validator.

Variable verify : string → string → string → bool.
Variable Number_toString : number → string.

Definition validateTransaction_body (transaction : Transaction)
  : M ValidationResult :=
  when (bool_decide (length (inputs transaction) = 0%nat))
    (errors_push (createValidationError EMPTY_INPUTS
       "La transacción no tiene entradas")) ;;
  when (bool_decide (length (outputs transaction) = 0%nat))
    (errors_push (createValidationError EMPTY_OUTPUTS
       "La transacción no tiene salidas")) ;;
  for_of (inputs transaction) (λ input,
    utxo ← getUTXO (txId input) (outputIndex input);
    match utxo with
    | None =>
        errors_push (createValidationError UTXO_NOT_FOUND
          ("UTXO no encontrado para " +:+ ref_text Number_toString input))
    | Some utxo =>
        totalInput_add (utxo_amount utxo) ;;
        let txDataToSign :=
          createTransactionDataForSigning_ Number_toString transaction in
        let isValidSignature :=
          verify txDataToSign (signature input) (owner input) in
        when (negb isValidSignature)
          (errors_push (createValidationError INVALID_SIGNATURE
             ("Firma inválida para input de "
                +:+ ref_text Number_toString input)))
    end) ;;
  for_of (outputs transaction) (λ output,
    totalOutput_add (amount output)) ;;
  ti ← read totalInput;
  to ← read totalOutput;
  when (neq ti to)
    (errors_push (createValidationError AMOUNT_MISMATCH
       ("Suma de entradas (" +:+ Number_toString ti
          +:+ ") no coincide con suma de salidas (" +:+ Number_toString to
          +:+ ")"))) ;;
  errs ← read errors_;
  mret {| valid := bool_decide (length errs = 0%nat); errors := errs |}.

Definition validateTransaction (transaction : Transaction)
    (pool : UTXOPoolManager) : ValidationResult * UTXOPoolManager :=
  let '(r, st) := validateTransaction_body transaction
                    (mkFrame pool [] [] zero zero) in
  (r, utxoPool st).

End Validator.
End Variant.

(** *** What each step of the method does to the frame *)

Section Characterisation.

Variable verify : string → string → string → bool.
Variable Number_toString : number → string.

Definition doubleSpendingError (input : TransactionInput) : ValidationError :=
  createValidationError DOUBLE_SPENDING
    ("UTXO duplicado: " +:+ ref_text Number_toString input).
Definition notFoundError (input : TransactionInput) : ValidationError :=
  createValidationError UTXO_NOT_FOUND
    ("UTXO no encontrado para " +:+ ref_text Number_toString input).
Definition invalidSignatureError (input : TransactionInput) : ValidationError :=
  createValidationError INVALID_SIGNATURE
    ("Firma inválida para input de " +:+ ref_text Number_toString input).
Definition amountMismatchError (ti to : number) : ValidationError :=
  createValidationError AMOUNT_MISMATCH
    ("Suma de entradas (" +:+ Number_toString ti
       +:+ ") no coincide con suma de salidas (" +:+ Number_toString to
       +:+ ")").
Definition negativeAmountError (output : value) : ValidationError :=
  createValidationError NEGATIVE_AMOUNT
    ("Output inválido con monto " +:+ Number_toString (amount output)
       +:+ " para recipient=" +:+ recipient output).

(** The pool entry an input refers to. *)
Definition resolve (pool : UTXOPoolManager) (input : TransactionInput)
  : option UTXO :=
  pool (txId input) (outputIndex input).

Definition structuralErrors (transaction : Transaction)
  : list ValidationError :=
  (if bool_decide (length (inputs transaction) = 0%nat)
   then [emptyInputsError] else [])
  ++ (if bool_decide (length (outputs transaction) = 0%nat)
      then [emptyOutputsError] else []).

Fixpoint duplicateErrors (seen : list string) (l : list TransactionInput)
  : list ValidationError :=
  match l with
  | [] => []
  | input :: l' =>
      (if bool_decide (utxoKey Number_toString input ∈ seen)
       then [doubleSpendingError input] else [])
      ++ duplicateErrors (seen ++ [utxoKey Number_toString input]) l'
  end.

(** The amounts of the entries found for the inputs, one for each input
    whose entry is found, in the order of the inputs. *)
Definition resolvedAmounts (pool : UTXOPoolManager)
    (l : list TransactionInput) : list number :=
  omap (λ input, utxo_amount <$> resolve pool input) l.

(** The total that [+=] builds, from 0, one amount after the other. *)
Definition total (l : list number) : number := foldl add zero l.

Definition inputTotal (pool : UTXOPoolManager) (l : list TransactionInput)
  : number := total (resolvedAmounts pool l).

Definition outputTotal (l : list value) : number := total (amount <$> l).

Definition balanceErrors (ti to : number) : list ValidationError :=
  if neq ti to then [amountMismatchError ti to] else [].

Definition negativeErrors (l : list value) : list ValidationError :=
  negativeAmountError <$> filter (λ output, le_zero (amount output) = true) l.

Definition inputError (transaction : Transaction) (pool : UTXOPoolManager)
    (input : TransactionInput) : option ValidationError :=
  match resolve pool input with
  | None => Some (notFoundError input)
  | Some _ =>
      if verify (createTransactionDataForSigning_ Number_toString transaction)
                (signature input) (owner input)
      then None else Some (invalidSignatureError input)
  end.

Definition inputErrors (transaction : Transaction) (pool : UTXOPoolManager)
    (l : list TransactionInput) : list ValidationError :=
  omap (inputError transaction pool) l.

(** The whole error list, in the order of the pushes. *)
Definition allErrors (transaction : Transaction) (pool : UTXOPoolManager)
  : list ValidationError :=
  structuralErrors transaction
  ++ duplicateErrors [] (inputs transaction)
  ++ inputErrors transaction pool (inputs transaction)
  ++ balanceErrors (inputTotal pool (inputs transaction))
                   (outputTotal (outputs transaction))
  ++ negativeErrors (outputs transaction).

(** The error list of the variant validator. *)
Definition variantErrors (transaction : Transaction) (pool : UTXOPoolManager)
  : list ValidationError :=
  structuralErrors transaction
  ++ inputErrors transaction pool (inputs transaction)
  ++ balanceErrors (inputTotal pool (inputs transaction))
                   (outputTotal (outputs transaction)).

End Characterisation.

(** *** Integers among the numbers *)

Definition sumZ (l : list Z) : Z := foldr Z.add 0 l.

(** The sum of the absolute values: a bound on every running total. *)
Definition magnitude (l : list Z) : Z := foldr (λ a acc, Z.abs a + acc) 0 l.

(** Mantissa and exponent of the double of a positive integer below 2^53. *)
Definition mant (p : positive) : positive :=
  Pos.shiftl p (Z.to_N (53 - Zpos (digits2_pos p))).
Definition expo (p : positive) : Z := Zpos (digits2_pos p) - 53.

(** The integer part of a finite number. *)
Definition to_Z (n : number) : Z :=
  match n with
  | S754_finite s m e =>
      let v := Z.shiftl (Zpos m) e in if s then - v else v
  | _ => 0
  end.

(** A text of numbers for the scenarios: the decimal numeral of the integer
    part, which is what [Number::toString] gives on the integers below
    2^53. *)
Definition integer_text (n : number) : string := pretty (to_Z n).

(** *** What [JSON.stringify] writes *)

(** A value with the JSON text of each number in the place of the number. *)
Inductive text_tree :=
  | TNum (numeral : string)
  | TStr (s : string)
  | TArr (l : list text_tree)
  | TObj (props : list (string * text_tree)).

Fixpoint written (Number_toString : number → string) (v : value)
  : text_tree :=
  match v with
  | VNum n => TNum (number_json Number_toString n)
  | VStr s => TStr s
  | VArr l => TArr (List.map (written Number_toString) l)
  | VObj props =>
      TObj (List.map (λ kv, (kv.1, written Number_toString kv.2)) props)
  end.

(** What the signing payload is written from: the transaction id, for every
    input its [utxoId] object and its owner, the output objects and the
    timestamp, each as [JSON.stringify] writes it. The signatures are not
    among them. *)
Definition signingFields (Number_toString : number → string)
    (transaction : Transaction)
  : string * list (text_tree * string) * list text_tree * string :=
  (id transaction,
   (λ input, (written Number_toString (utxoId input), owner input))
     <$> inputs transaction,
   written Number_toString <$> outputs transaction,
   number_json Number_toString (timestamp transaction)).

Fixpoint print (t : text_tree) : string :=
  match t with
  | TNum numeral => numeral
  | TStr s => quote s
  | TArr l => "[" +:+ join "," (List.map print l) +:+ "]"
  | TObj props =>
      "{" +:+ join ","
                (List.map (λ kv, quote kv.1 +:+ ":" +:+ print kv.2) props)
          +:+ "}"
  end.

(** The characters of the JSON text of a number: digits, signs, decimal
    point, exponent mark, and the letters of [null]. *)
Definition number_char (c : ascii) : Prop := c ∈ chars "+-.0123456789elnu".

Definition number_text (s : string) : Prop :=
  s ≠ EmptyString ∧ Forall number_char (chars s).

(** A text of numbers that is made of such characters, as the built-in
    is. *)
Definition prints_numbers (Number_toString : number → string) : Prop :=
  ∀ n, number_text (number_json Number_toString n).

(** The text after a number does not go on with a character of a number. *)
Definition delimited (r : string) : Prop :=
  match r with
  | EmptyString => True
  | String c _ => ¬ number_char c
  end.

(** An encoding that can be read back, up to [f], in front of a delimited
    text. *)
Definition readable {A B} (enc : A → string) (f : A → B) (x : A) : Prop :=
  ∀ y s1 s2, delimited s1 → delimited s2 →
    enc x +:+ s1 = enc y +:+ s2 → f x = f y ∧ s1 = s2.

(** *** Scenarios *)

Definition outputRef (t : string) (i : Z) : value :=
  VObj [("txId", VStr t); ("outputIndex", VNum (of_Z i))].

Definition payment (r : string) (a : Z) : value :=
  VObj [("recipient", VStr r); ("amount", VNum (of_Z a))].

(** A pool with one entry: output 0 of transaction "A", owned by "K", with
    amount [a]. *)
Definition poolOf (a : Z) : UTXOPoolManager := λ t i,
  if bool_decide (t = "A") && SFeqb i zero
  then Some (mkUTXO "K" (of_Z a)) else None.

Definition spendA (sig : string) : TransactionInput :=
  mkInput (outputRef "A" 0) "K" sig.

(** The entry spent into outputs of [a] and [b]. *)
Definition txSplit (a b : Z) (sig : string) : Transaction :=
  mkTransaction "T1" [spendA sig] [payment "R" a; payment "S" b]
    (of_Z 1700000000).
Definition sigSplit (a b : Z) : string :=
  toy_sign (createTransactionDataForSigning_ integer_text
              (txSplit a b EmptyString)) "K".
Definition txSplitSigned (a b : Z) : Transaction :=
  txSplit a b (sigSplit a b).

(** The output of [txPaid] with its properties in the other order. *)
Definition txPaid : Transaction :=
  mkTransaction "T5" [spendA "s"] [payment "R" 10] (of_Z 1700000000).
Definition txPaidReordered : Transaction :=
  mkTransaction "T5" [spendA "s"]
    [VObj [("amount", VNum (of_Z 10)); ("recipient", VStr "R")]]
    (of_Z 1700000000).

(** [txPaid] with another signature on its input. *)
Definition txPaidResigned : Transaction :=
  mkTransaction "T5" [spendA "another"] [payment "R" 10] (of_Z 1700000000).

End Js.
(** ** The typed transactions as JavaScript values *)

(** A transaction of the first embedding as the JavaScript value that the
    declared types describe: every object with its properties in the order
    of the declarations, every integer as the double nearest to it. *)
Definition js_utxoId (u : UtxoId) : Js.value :=
  Js.VObj [("txId", Js.VStr (txId u));
           ("outputIndex", Js.VNum (Js.of_Z (outputIndex u)))].

Definition js_input (input : TransactionInput) : Js.TransactionInput :=
  Js.mkInput (js_utxoId (utxoId input)) (owner input) (signature input).

Definition js_output (output : TransactionOutput) : Js.value :=
  Js.VObj [("recipient", Js.VStr (recipient output));
           ("amount", Js.VNum (Js.of_Z (amount output)))].

Definition js_transaction (transaction : Transaction) : Js.Transaction :=
  Js.mkTransaction (id transaction)
    (js_input <$> inputs transaction)
    (js_output <$> outputs transaction)
    (Js.of_Z (timestamp transaction)).

Definition js_utxo (u : UTXO) : Js.UTXO :=
  Js.mkUTXO (utxo_owner u) (Js.of_Z (utxo_amount u)).

(** The pool read at a transaction id and a number: the entry at the integer
    that the number holds, none when it holds no integer. *)
Definition js_pool (pool : UTXOPoolManager) : Js.UTXOPoolManager := λ t i,
  if SFeqb (Js.of_Z (Js.to_Z i)) i
  then js_utxo <$> pool !! (t, Js.to_Z i) else None.

(** The numbers of a transaction and of the pool entries it refers to are
    integers that doubles hold exactly, and so is every running total. *)
Definition in_safe_range (transaction : Transaction) (pool : UTXOPoolManager)
  : Prop :=
  Js.safe (timestamp transaction)
  ∧ Forall (λ input, Js.safe (outputIndex (utxoId input)))
           (inputs transaction)
  ∧ Js.magnitude
      (omap (λ input, utxo_amount <$> resolve pool input)
            (inputs transaction)) < 2 ^ 53
  ∧ Js.magnitude (amount <$> outputs transaction) < 2 ^ 53.

(** * Properties *)

(** ** Keys and reference texts identify the referenced output *)

Ltac numeral_yes :=
  unfold numeral_char, chars; simpl;
  repeat first [apply list_elem_of_here | apply list_elem_of_further].

Ltac numeral_not :=
  let H := fresh in
  unfold numeral_char, chars; simpl; intros H;
  repeat (apply elem_of_cons in H as [H|H]; [discriminate|]);
  by apply elem_of_nil in H.

Section Text.

Lemma chars_app s t : chars (s +:+ t) = chars s ++ chars t.
Proof. induction s as [|c s IH]; simpl; [done|]. by rewrite IH. Qed.

Lemma chars_inj s t : chars s = chars t → s = t.
Proof.
  intros H. rewrite <- (String.string_of_list_ascii_of_string s),
    <- (String.string_of_list_ascii_of_string t).
  unfold chars in H. by rewrite H.
Qed.

Lemma pretty_N_char_numeral x : numeral_char (pretty_N_char x).
Proof.
  unfold pretty_N_char. repeat case_match; numeral_yes.
Qed.

Lemma pretty_N_go_numeral x s :
  Forall numeral_char (chars s) → Forall numeral_char (chars (pretty_N_go x s)).
Proof.
  revert s. induction (N.lt_wf_0 x) as [x _ IH]; intros s Hs.
  destruct (decide (x = 0%N)) as [->|Hx].
  - by rewrite pretty_N_go_0.
  - rewrite pretty_N_go_step by lia. apply IH.
    + apply N.div_lt; lia.
    + simpl. constructor; [apply pretty_N_char_numeral | done].
Qed.

Lemma pretty_N_numeral (x : N) : Forall numeral_char (chars (pretty x)).
Proof.
  unfold pretty, pretty_N. case_decide.
  - constructor; [numeral_yes|constructor].
  - apply pretty_N_go_numeral. constructor.
Qed.

Lemma pretty_Z_numeral (z : Z) : Forall numeral_char (chars (pretty z)).
Proof.
  destruct z as [|p|p]; unfold pretty, pretty_Z.
  - constructor; [numeral_yes|constructor].
  - apply pretty_N_numeral.
  - rewrite chars_app. apply Forall_app; split.
    + constructor; [numeral_yes|constructor].
    + apply pretty_N_numeral.
Qed.

(** The text after the last occurrence of a separator determines the split. *)
Lemma split_at_last {A} (c : A) (a a' n n' : list A) :
  c ∉ n → c ∉ n' → a ++ c :: n = a' ++ c :: n' → a = a' ∧ n = n'.
Proof.
  revert a'. induction a as [|x a IH]; intros [|y a'] Hn Hn' H; simpl in H.
  - by injection H as ->.
  - injection H as -> ->. destruct Hn. apply elem_of_app; right; left.
  - injection H as <- <-. destruct Hn'. apply elem_of_app; right; left.
  - injection H as -> H. by destruct (IH a' Hn Hn' H) as [-> ->].
Qed.

Lemma numeral_no (c : ascii) (z : Z) :
  ¬ numeral_char c → c ∉ chars (pretty z).
Proof.
  intros Hc Hin. apply Hc.
  by eapply (proj1 (Forall_forall _ _) (pretty_Z_numeral z)).
Qed.

Lemma utxoKey_inj x y : utxoKey x = utxoKey y → utxoId x = utxoId y.
Proof.
  unfold utxoKey. intros H. apply (f_equal chars) in H.
  rewrite !chars_app in H. simpl in H.
  apply split_at_last in H as [Ht Hi].
  - apply chars_inj in Ht, Hi. apply (inj pretty) in Hi.
    destruct (utxoId x), (utxoId y); simpl in *; congruence.
  - apply numeral_no. numeral_not.
  - apply numeral_no. numeral_not.
Qed.

Lemma ref_text_inj x y : ref_text x = ref_text y → utxoId x = utxoId y.
Proof.
  unfold ref_text. intros H. apply (f_equal chars) in H.
  rewrite !chars_app in H.
  change (chars ", outputIndex=") with (chars ", outputIndex" ++ chars "=") in H.
  rewrite <- !app_assoc in H. rewrite !(app_assoc (chars "txId=")) in H.
  rewrite !(app_assoc (chars "txId=" ++ _)) in H. simpl (chars "=" ++ _) in H.
  apply split_at_last in H as [Ht Hi].
  - apply app_inv_tail, app_inv_head in Ht.
    apply chars_inj in Ht, Hi. apply (inj pretty) in Hi.
    destruct (utxoId x), (utxoId y); simpl in *; congruence.
  - apply numeral_no. numeral_not.
  - apply numeral_no. numeral_not.
Qed.

End Text.

(** ** The loops and the run of the method *)

Section ValidatorFacts.

Variable verify : string → string → string → bool.

Lemma duplicate_loop l st :
  for_of l (λ input,
    let utxoKey := utxoKey input in
    seen ← used_includes utxoKey;
    when seen (errors_push (doubleSpendingError input)) ;;
    used_push utxoKey) st
  = (tt, mkFrame (utxoPool st) (errors_ st ++ duplicateErrors (used st) l)
                 (used st ++ (utxoKey <$> l))
                 (totalInput st) (totalOutput st)).
Proof.
  revert st. induction l as [|x l IH]; intros [p e u ti to]; simpl.
  - by rewrite !app_nil_r.
  - unfold mbind, M_bind, used_includes, used_push, when; simpl.
    destruct (bool_decide (utxoKey x ∈ u)); simpl;
      rewrite IH; simpl; by rewrite <- ?app_assoc.
Qed.

Lemma inputTotal_cons pool x l :
  inputTotal pool (x :: l)
  = match resolve pool x with Some u => utxo_amount u | None => 0 end
    + inputTotal pool l.
Proof. unfold inputTotal; simpl. by destruct (resolve pool x). Qed.

Lemma inputErrors_cons transaction pool x l :
  inputErrors verify transaction pool (x :: l)
  = match inputError verify transaction pool x with
    | Some e => [e] | None => []
    end ++ inputErrors verify transaction pool l.
Proof.
  unfold inputErrors; simpl.
  by destruct (inputError verify transaction pool x).
Qed.

Lemma resolve_loop transaction l st :
  for_of l (λ input,
    utxo ← getUTXO (txId (utxoId input)) (outputIndex (utxoId input));
    match utxo with
    | None => errors_push (notFoundError input)
    | Some utxo =>
        totalInput_add (utxo_amount utxo) ;;
        let transactionData := createTransactionDataForSigning_ transaction in
        let isValid := verify transactionData (signature input) (owner input) in
        when (negb isValid) (errors_push (invalidSignatureError input))
    end) st
  = (tt, mkFrame (utxoPool st)
                 (errors_ st ++ inputErrors verify transaction (utxoPool st) l)
                 (used st)
                 (totalInput st + inputTotal (utxoPool st) l)
                 (totalOutput st)).
Proof.
  revert st. induction l as [|x l IH]; intros [p e u ti to];
    cbn [for_of utxoPool errors_ used totalInput totalOutput].
  - simpl. by rewrite app_nil_r, Z.add_0_r.
  - rewrite inputTotal_cons, inputErrors_cons.
    unfold mbind, M_bind, getUTXO, inputError; simpl.
    change (p !! (txId (utxoId x), outputIndex (utxoId x)))
      with (resolve p x).
    destruct (resolve p x) as [w|]; simpl.
    + destruct (verify _ _ _); simpl; rewrite IH; simpl;
        rewrite <- ?app_assoc, Z.add_assoc; done.
    + rewrite IH; simpl. by rewrite <- app_assoc, Z.add_0_l.
Qed.

Lemma outputTotal_cons x l :
  outputTotal (x :: l) = amount x + outputTotal l.
Proof. done. Qed.

Lemma negativeErrors_cons x l :
  negativeErrors (x :: l)
  = (if amount x <=? 0 then [negativeAmountError x] else [])
    ++ negativeErrors l.
Proof.
  unfold negativeErrors. rewrite filter_cons.
  destruct (Z.leb_spec (amount x) 0).
  - by rewrite decide_True.
  - by rewrite decide_False by lia.
Qed.

Lemma sum_loop l st :
  for_of l (λ output, totalOutput_add (amount output)) st
  = (tt, mkFrame (utxoPool st) (errors_ st) (used st) (totalInput st)
                 (totalOutput st + outputTotal l)).
Proof.
  revert st. induction l as [|x l IH]; intros [p e u ti to];
    cbn [for_of utxoPool errors_ used totalInput totalOutput].
  - simpl. by rewrite Z.add_0_r.
  - rewrite outputTotal_cons. unfold mbind, M_bind; simpl.
    rewrite IH; simpl. by rewrite Z.add_assoc.
Qed.

Lemma negative_loop l st :
  for_of l (λ output,
    totalOutput_add (amount output) ;;
    when (amount output <=? 0)
      (errors_push (negativeAmountError output))) st
  = (tt, mkFrame (utxoPool st) (errors_ st ++ negativeErrors l) (used st)
                 (totalInput st) (totalOutput st + outputTotal l)).
Proof.
  revert st. induction l as [|x l IH]; intros [p e u ti to];
    cbn [for_of utxoPool errors_ used totalInput totalOutput].
  - simpl. by rewrite app_nil_r, Z.add_0_r.
  - rewrite outputTotal_cons, negativeErrors_cons.
    unfold mbind, M_bind; simpl.
    destruct (amount x <=? 0); simpl; rewrite IH; simpl;
      by rewrite <- ?app_assoc, Z.add_assoc.
Qed.

Ltac frame_simpl :=
  cbn [fst snd utxoPool errors_ used totalInput totalOutput app].

Lemma run_bind {A B} (m : M A) (f : A → M B) st :
  (m ≫= f) st = f (m st).1 (m st).2.
Proof. unfold mbind, M_bind. by destruct (m st). Qed.

Lemma run_when c e st :
  when c (errors_push e) st
  = (tt, mkFrame (utxoPool st) (errors_ st ++ if c then [e] else [])
                 (used st) (totalInput st) (totalOutput st)).
Proof. destruct st, c; simpl; by rewrite ?app_nil_r. Qed.

(** The frame at the end of the body, started on a pool with fresh locals. *)
Lemma validateTransaction_body_run transaction pool :
  validateTransaction_body verify transaction (mkFrame pool [] [] 0 0)
  = ({| valid := bool_decide (length (allErrors verify transaction pool) = 0%nat);
        errors := allErrors verify transaction pool |},
     mkFrame pool (allErrors verify transaction pool)
             (utxoKey <$> inputs transaction)
             (inputTotal pool (inputs transaction))
             (outputTotal (outputs transaction)
              + outputTotal (outputs transaction))).
Proof.
  unfold validateTransaction_body.
  rewrite run_bind, run_when; frame_simpl.
  rewrite run_bind, run_when; frame_simpl.
  rewrite run_bind, duplicate_loop; frame_simpl.
  rewrite run_bind, resolve_loop; frame_simpl.
  rewrite run_bind, sum_loop; frame_simpl.
  rewrite !run_bind; unfold read; frame_simpl.
  rewrite run_when; frame_simpl.
  rewrite negative_loop; frame_simpl.
  unfold mret, M_ret, allErrors, structuralErrors, balanceErrors.
  rewrite !Z.add_0_l, <- !app_assoc. done.
Qed.

(** The method returns [allErrors] and leaves the pool as it found it. *)
Lemma validateTransaction_run transaction pool :
  validateTransaction verify transaction pool
  = ({| valid := bool_decide (length (allErrors verify transaction pool) = 0%nat);
        errors := allErrors verify transaction pool |}, pool).
Proof.
  unfold validateTransaction. by rewrite validateTransaction_body_run.
Qed.

Lemma variant_validateTransaction_run transaction pool :
  Variant.validateTransaction verify transaction pool
  = ({| valid :=
          bool_decide (length (variantErrors verify transaction pool) = 0%nat);
        errors := variantErrors verify transaction pool |}, pool).
Proof.
  unfold Variant.validateTransaction, Variant.validateTransaction_body.
  rewrite run_bind, run_when; frame_simpl.
  rewrite run_bind, run_when; frame_simpl.
  rewrite run_bind, resolve_loop; frame_simpl.
  rewrite run_bind, sum_loop; frame_simpl.
  rewrite !run_bind; unfold read; frame_simpl.
  rewrite run_when; frame_simpl.
  unfold mret, M_ret, variantErrors, structuralErrors, balanceErrors.
  rewrite !Z.add_0_l, <- !app_assoc. done.
Qed.

(** *** The kinds found in each stretch of the error list *)

Lemma structuralErrors_kind transaction :
  Forall (λ e, kind e = EMPTY_INPUTS ∨ kind e = EMPTY_OUTPUTS)
         (structuralErrors transaction).
Proof.
  unfold structuralErrors.
  repeat case_bool_decide; simpl;
    repeat first [apply Forall_nil_2 | apply Forall_cons_2; [simpl; auto|]].
Qed.

Lemma duplicateErrors_kind seen l :
  Forall (λ e, kind e = DOUBLE_SPENDING) (duplicateErrors seen l).
Proof.
  revert seen. induction l as [|x l IH]; intros seen; simpl; [constructor|].
  apply Forall_app; split; [|apply IH].
  case_bool_decide; repeat constructor.
Qed.

Lemma inputErrors_kind transaction pool l :
  Forall (λ e, kind e = UTXO_NOT_FOUND ∨ kind e = INVALID_SIGNATURE)
         (inputErrors verify transaction pool l).
Proof.
  apply Forall_forall. intros e He.
  apply list_elem_of_omap in He as (x & _ & Hx).
  unfold inputError in Hx.
  destruct (resolve pool x); [destruct (verify _ _ _)|]; simplify_eq; auto.
Qed.

Lemma balanceErrors_kind ti to :
  Forall (λ e, kind e = AMOUNT_MISMATCH) (balanceErrors ti to).
Proof. unfold balanceErrors. destruct (negb _); repeat constructor. Qed.

Lemma negativeErrors_kind l :
  Forall (λ e, kind e = NEGATIVE_AMOUNT) (negativeErrors l).
Proof.
  apply Forall_forall. intros e He.
  by apply list_elem_of_fmap in He as (x & -> & _).
Qed.

Lemma ofKind_app k l1 l2 : ofKind k (l1 ++ l2) = ofKind k l1 ++ ofKind k l2.
Proof. apply filter_app. Qed.

Lemma ofKind_all k l : Forall (λ e, kind e = k) l → ofKind k l = l.
Proof.
  induction 1 as [|e l He _ IH]; [done|].
  unfold ofKind in *. rewrite filter_cons, decide_True by done. by rewrite IH.
Qed.

Lemma ofKind_none k l : Forall (λ e, kind e ≠ k) l → ofKind k l = [].
Proof.
  induction 1 as [|e l He _ IH]; [done|].
  unfold ofKind in *. by rewrite filter_cons, decide_False.
Qed.

Ltac other_kind :=
  eapply Forall_impl;
  [first [apply structuralErrors_kind | apply duplicateErrors_kind
         | apply inputErrors_kind | apply balanceErrors_kind
         | apply negativeErrors_kind]
  | simpl; intros ? ?; intuition congruence].

Lemma ofKind_allErrors k transaction pool :
  ofKind k (allErrors verify transaction pool)
  = ofKind k (structuralErrors transaction)
    ++ ofKind k (duplicateErrors [] (inputs transaction))
    ++ ofKind k (inputErrors verify transaction pool (inputs transaction))
    ++ ofKind k (balanceErrors (inputTotal pool (inputs transaction))
                               (outputTotal (outputs transaction)))
    ++ ofKind k (negativeErrors (outputs transaction)).
Proof. unfold allErrors. by rewrite !ofKind_app. Qed.

Lemma ofKind_negative transaction pool :
  ofKind NEGATIVE_AMOUNT (allErrors verify transaction pool)
  = negativeErrors (outputs transaction).
Proof.
  rewrite ofKind_allErrors.
  rewrite (ofKind_none _ (structuralErrors _)) by other_kind.
  rewrite (ofKind_none _ (duplicateErrors _ _)) by other_kind.
  rewrite (ofKind_none _ (inputErrors _ _ _ _)) by other_kind.
  rewrite (ofKind_none _ (balanceErrors _ _)) by other_kind.
  rewrite ofKind_all by apply negativeErrors_kind. done.
Qed.

Lemma ofKind_mismatch transaction pool :
  ofKind AMOUNT_MISMATCH (allErrors verify transaction pool)
  = balanceErrors (inputTotal pool (inputs transaction))
                  (outputTotal (outputs transaction)).
Proof.
  rewrite ofKind_allErrors.
  rewrite (ofKind_none _ (structuralErrors _)) by other_kind.
  rewrite (ofKind_none _ (duplicateErrors _ _)) by other_kind.
  rewrite (ofKind_none _ (inputErrors _ _ _ _)) by other_kind.
  rewrite (ofKind_none _ (negativeErrors _)) by other_kind.
  rewrite ofKind_all by apply balanceErrors_kind. by rewrite app_nil_r.
Qed.

Lemma ofKind_double transaction pool :
  ofKind DOUBLE_SPENDING (allErrors verify transaction pool)
  = duplicateErrors [] (inputs transaction).
Proof.
  rewrite ofKind_allErrors.
  rewrite (ofKind_none _ (structuralErrors _)) by other_kind.
  rewrite (ofKind_none _ (inputErrors _ _ _ _)) by other_kind.
  rewrite (ofKind_none _ (balanceErrors _ _)) by other_kind.
  rewrite (ofKind_none _ (negativeErrors _)) by other_kind.
  rewrite ofKind_all by apply duplicateErrors_kind. by rewrite !app_nil_r.
Qed.

(** *** Order of the pushes *)

Lemma inPhaseOrder_app n l1 l2 :
  Forall (λ e, (phase (kind e) ≤ n)%nat) l1 →
  Forall (λ e, (n ≤ phase (kind e))%nat) l2 →
  inPhaseOrder l1 → inPhaseOrder l2 → inPhaseOrder (l1 ++ l2).
Proof.
  intros H1 H2 O1 O2 i j e1 e2 Hi Hj Hij.
  apply lookup_app_Some in Hi as [Hi|[Hli Hi]];
    apply lookup_app_Some in Hj as [Hj|[Hlj Hj]].
  - by eapply O1.
  - apply list_elem_of_lookup_2 in Hi, Hj.
    pose proof (proj1 (Forall_forall _ _) H1 _ Hi).
    pose proof (proj1 (Forall_forall _ _) H2 _ Hj). simpl in *. lia.
  - apply lookup_lt_Some in Hj. lia.
  - eapply O2; [done..|lia].
Qed.

Lemma inPhaseOrder_flat n l :
  Forall (λ e, phase (kind e) = n) l → inPhaseOrder l.
Proof.
  intros H i j e1 e2 Hi Hj _.
  apply list_elem_of_lookup_2 in Hi, Hj.
  pose proof (proj1 (Forall_forall _ _) H _ Hi).
  pose proof (proj1 (Forall_forall _ _) H _ Hj). simpl in *. lia.
Qed.

Ltac phase_kind :=
  eapply Forall_impl;
  [first [apply structuralErrors_kind | apply duplicateErrors_kind
         | apply inputErrors_kind | apply balanceErrors_kind
         | apply negativeErrors_kind]
  | simpl; intros ? ?;
    repeat match goal with
           | H : _ ∨ _ |- _ => destruct H
           | H : kind _ = _ |- _ => rewrite H
           end; simpl; lia].

Lemma structuralErrors_inPhaseOrder transaction :
  inPhaseOrder (structuralErrors transaction).
Proof.
  unfold structuralErrors. apply (inPhaseOrder_app 0).
  - case_bool_decide; repeat constructor.
  - case_bool_decide; repeat constructor.
  - apply (inPhaseOrder_flat 0). case_bool_decide; repeat constructor.
  - apply (inPhaseOrder_flat 1). case_bool_decide; repeat constructor.
Qed.

Lemma allErrors_inPhaseOrder transaction pool :
  inPhaseOrder (allErrors verify transaction pool).
Proof.
  unfold allErrors.
  apply (inPhaseOrder_app 1); [phase_kind| |apply structuralErrors_inPhaseOrder|].
  { repeat (apply Forall_app; split); phase_kind. }
  apply (inPhaseOrder_app 2); [phase_kind| |apply (inPhaseOrder_flat 2); phase_kind|].
  { repeat (apply Forall_app; split); phase_kind. }
  apply (inPhaseOrder_app 3); [phase_kind| |apply (inPhaseOrder_flat 3); phase_kind|].
  { repeat (apply Forall_app; split); phase_kind. }
  apply (inPhaseOrder_app 4); [phase_kind|phase_kind| |].
  - apply (inPhaseOrder_flat 4); phase_kind.
  - apply (inPhaseOrder_flat 5); phase_kind.
Qed.

(** *** The claims about the result as a whole *)

(** C1. The valid flag of the result is true exactly when the list of errors
    accumulated by the body is empty, and the result carries that list whole,
    whether or not it is empty. *)
Theorem valid_iff_no_errors transaction pool :
  let r := (validateTransaction verify transaction pool).1 in
  let accumulated :=
    errors_ (validateTransaction_body verify transaction
               (mkFrame pool [] [] 0 0)).2 in
  (valid r = true ↔ accumulated = []) ∧ errors r = accumulated.
Proof.
  rewrite validateTransaction_run, validateTransaction_body_run. simpl.
  split; [|done]. rewrite bool_decide_eq_true. apply length_zero_iff_nil.
Qed.

(** C9. Two calls on the same transaction, the second on the pool the first
    one left, return the same result (flag and error list, in order), and the
    pool after each call is the pool before it. *)
Theorem validateTransaction_idempotent transaction pool :
  let first := validateTransaction verify transaction pool in
  let second := validateTransaction verify transaction first.2 in
  first.1 = second.1 ∧ first.2 = pool ∧ second.2 = pool.
Proof. simpl. by rewrite !validateTransaction_run. Qed.


(** C3 (amended). The errors stand in the order in which the method runs its
    checks: empty inputs, empty outputs, duplicates, resolution of the
    inputs, balance, non-positive outputs; every AMOUNT_MISMATCH entry stands
    before every NEGATIVE_AMOUNT entry. *)
Theorem errors_in_check_order transaction pool :
  let E := errors (validateTransaction verify transaction pool).1 in
  inPhaseOrder E ∧ precedes AMOUNT_MISMATCH NEGATIVE_AMOUNT E.
Proof.
  rewrite validateTransaction_run. simpl.
  pose proof (allErrors_inPhaseOrder transaction pool) as HO.
  split; [done|].
  intros i j e1 e2 Hi Hj H1 H2.
  destruct (decide (i < j)%nat) as [|Hge]; [done|].
  destruct (decide (i = j)) as [->|Hne]; [congruence|].
  assert (j < i)%nat as Hlt by lia.
  pose proof (HO j i e2 e1 Hj Hi Hlt) as Hp.
  rewrite H1, H2 in Hp. simpl in Hp. lia.
Qed.

(** *** Duplicate references *)

Lemma utxoKey_elem_of x (l : list TransactionInput) :
  utxoKey x ∈ (utxoKey <$> l) ↔ utxoId x ∈ (utxoId <$> l).
Proof.
  rewrite !list_elem_of_fmap. split; intros (y & Hy & Hin); exists y.
  - split; [by apply utxoKey_inj|done].
  - split; [|done]. unfold utxoKey. by rewrite Hy.
Qed.

Lemma duplicateErrors_positions pre rest :
  duplicateErrors (utxoKey <$> pre) rest
  = omap (λ j, doubleSpendingError <$> ((pre ++ rest) !! j))
         (filter (λ j, is_repeat (pre ++ rest) j = true)
                 (seq (length pre) (length rest))).
Proof.
  revert pre. induction rest as [|x rest IH]; intros pre; [done|].
  cbn [duplicateErrors length seq]. rewrite filter_cons.
  assert (Hrep : is_repeat (pre ++ x :: rest) (length pre)
                 = bool_decide (utxoKey x ∈ (utxoKey <$> pre))).
  { unfold is_repeat. rewrite list_lookup_middle by done.
    rewrite take_app_length. apply bool_decide_ext.
    symmetry. apply utxoKey_elem_of. }
  rewrite Hrep.
  specialize (IH (pre ++ [x])).
  rewrite fmap_app, <- app_assoc, length_app in IH. simpl in IH.
  rewrite Nat.add_1_r in IH. rewrite IH.
  destruct (bool_decide (utxoKey x ∈ (utxoKey <$> pre))) eqn:Hb.
  - rewrite decide_True by done. cbn [omap list_omap].
    rewrite list_lookup_middle by done. done.
  - rewrite decide_False by done. done.
Qed.

Lemma duplicateErrors_repeat_positions l :
  duplicateErrors [] l
  = omap (λ j, doubleSpendingError <$> (l !! j)) (repeat_positions l).
Proof. apply (duplicateErrors_positions [] l). Qed.
Lemma doubleSpendingError_inj x y :
  doubleSpendingError x = doubleSpendingError y → utxoId x = utxoId y.
Proof.
  intros H. apply (f_equal message) in H. cbn [message] in H.
  unfold doubleSpendingError, createValidationError in H. cbn [message] in H.
  apply ref_text_inj. by apply (inj (String.append _)) in H.
Qed.

Lemma filter_omap {A B} (f : A → option B) (P : B → Prop) (Q : A → Prop)
    `{∀ y, Decision (P y)} `{∀ x, Decision (Q x)} (l : list A) :
  (∀ x y, f x = Some y → (P y ↔ Q x)) →
  (∀ x, f x = None → ¬ Q x) →
  filter P (omap f l) = omap f (filter Q l).
Proof.
  intros HPQ HN. induction l as [|x l IH]; [done|].
  rewrite filter_cons. cbn [omap list_omap].
  destruct (f x) as [y|] eqn:Hfx.
  - rewrite filter_cons. destruct (decide (P y)) as [Hp|Hp].
    + rewrite decide_True by (by eapply HPQ). cbn [omap list_omap].
      rewrite Hfx. f_equal. apply IH.
    + rewrite decide_False by (by rewrite <- HPQ). apply IH.
  - rewrite decide_False by (by apply HN). apply IH.
Qed.

Lemma singleton_of_NoDup {A} (l : list A) a :
  NoDup l → (∀ x, x ∈ l ↔ x = a) → l = [a].
Proof.
  intros Hnd Hin. destruct l as [|x l].
  - exfalso. eapply elem_of_nil, Hin. done.
  - assert (x = a) as -> by (apply Hin; left).
    f_equal. apply elem_of_nil_inv. intros y Hy.
    assert (y = a) as -> by (apply Hin; by right).
    by apply NoDup_cons in Hnd as [? _].
Qed.

Section Twice.

Variables (l1 l2 l3 : list TransactionInput) (a b : TransactionInput).
Hypothesis same : utxoId a = utxoId b.
Hypothesis others : utxoId a ∉ (utxoId <$> (l1 ++ l2 ++ l3)).

Let l := l1 ++ a :: l2 ++ b :: l3.
Let second := (length l1 + S (length l2))%nat.

Lemma twice_split : l = (l1 ++ a :: l2) ++ b :: l3.
Proof. subst l. by rewrite <- app_assoc. Qed.

Lemma twice_second : l !! second = Some b.
Proof.
  rewrite twice_split. apply list_lookup_middle.
  subst second. rewrite length_app. simpl. lia.
Qed.

Lemma twice_take_second : take second l = l1 ++ a :: l2.
Proof.
  rewrite twice_split. apply take_app_length'.
  subst second. rewrite length_app. simpl. lia.
Qed.

Lemma twice_lookup j x :
  l !! j = Some x → utxoId x = utxoId a →
  j = length l1 ∨ j = second.
Proof.
  subst l second. intros Hj Hx.
  assert (Hno : ∀ y, y ∈ l1 ++ l2 ++ l3 → utxoId y ≠ utxoId a).
  { intros y Hy Heq. apply others. rewrite <- Heq.
    by apply list_elem_of_fmap_2. }
  apply lookup_app_Some in Hj as [Hj|[Hl Hj]].
  { destruct (Hno x); [|done]. apply list_elem_of_lookup_2 in Hj.
    apply elem_of_app. by left. }
  apply lookup_cons_Some in Hj as [[Hj _]|[Hp Hj]]; [left; lia|].
  apply lookup_app_Some in Hj as [Hj|[Hl' Hj]].
  { destruct (Hno x); [|done]. apply list_elem_of_lookup_2 in Hj.
    rewrite !elem_of_app. auto. }
  apply lookup_cons_Some in Hj as [[Hj _]|[Hp' Hj]]; [right; lia|].
  destruct (Hno x); [|done]. apply list_elem_of_lookup_2 in Hj.
  rewrite !elem_of_app. auto.
Qed.

Lemma twice_repeat_positions :
  filter (refersTo l (utxoId a)) (repeat_positions l) = [second].
Proof.
  apply singleton_of_NoDup.
  { apply NoDup_filter, NoDup_filter, NoDup_seq. }
  intros j. unfold repeat_positions.
  rewrite !list_elem_of_filter, elem_of_seq. unfold refersTo.
  split.
  - intros (Href & Hrep & _).
    destruct (l !! j) as [x|] eqn:Hj; [|done].
    injection Href as Href.
    destruct (twice_lookup j x Hj Href) as [->| ->]; [|done].
    exfalso. unfold is_repeat in Hrep. rewrite Hj in Hrep.
    apply bool_decide_eq_true in Hrep.
    subst l. rewrite take_app_length in Hrep.
    apply others. rewrite fmap_app, elem_of_app. left. by rewrite <- Href.
  - intros ->. rewrite twice_second. split; [by rewrite same|].
    split.
    + unfold is_repeat. rewrite twice_second, twice_take_second.
      apply bool_decide_eq_true. rewrite <- same.
      apply list_elem_of_fmap_2, elem_of_app. right. left.
    + pose proof twice_second as Hs. apply lookup_lt_Some in Hs. lia.
Qed.

Lemma twice_first_not_repeat : length l1 ∉ repeat_positions l.
Proof.
  unfold repeat_positions. rewrite list_elem_of_filter.
  intros [Hrep _]. unfold is_repeat in Hrep. subst l.
  rewrite list_lookup_middle in Hrep by done.
  apply bool_decide_eq_true in Hrep. rewrite take_app_length in Hrep.
  apply others. rewrite fmap_app, elem_of_app. by left.
Qed.

Lemma twice_second_repeat : second ∈ repeat_positions l.
Proof.
  assert (second ∈ filter (refersTo l (utxoId a)) (repeat_positions l))
    as Hin by (rewrite twice_repeat_positions; left).
  by apply list_elem_of_filter in Hin as [_ Hin].
Qed.

End Twice.
Lemma duplicateErrors_app seen l l' :
  duplicateErrors seen (l ++ l')
  = duplicateErrors seen l ++ duplicateErrors (seen ++ (utxoKey <$> l)) l'.
Proof.
  revert seen. induction l as [|x l IH]; intros seen.
  - simpl. by rewrite app_nil_r.
  - cbn [app duplicateErrors fmap list_fmap]. rewrite IH.
    by rewrite <- !app_assoc.
Qed.

Lemma duplicateErrors_fresh seen l :
  (∀ x, x ∈ l → utxoId x ∉ (utxoId <$> seen)) →
  NoDup (utxoId <$> l) →
  duplicateErrors (utxoKey <$> seen) l = [].
Proof.
  revert seen. induction l as [|x l IH]; intros seen Hseen Hnd; [done|].
  cbn [duplicateErrors]. rewrite fmap_cons in Hnd.
  apply NoDup_cons in Hnd as [Hx Hnd].
  rewrite bool_decide_eq_false_2.
  2:{ rewrite utxoKey_elem_of. apply Hseen. left. }
  cbn [app].
  replace ((utxoKey <$> seen) ++ [utxoKey x]) with (utxoKey <$> (seen ++ [x]))
    by (by rewrite fmap_app).
  apply IH; [|done].
  intros y Hy. rewrite fmap_app, elem_of_app. intros [Hin|Hin].
  - by apply (Hseen y); [right|].
  - apply list_elem_of_singleton in Hin. apply Hx. rewrite <- Hin.
    by apply list_elem_of_fmap_2.
Qed.

Lemma twice_only_duplicate l1 a l2 b l3 :
  utxoId a = utxoId b →
  utxoId a ∉ (utxoId <$> (l1 ++ l2 ++ l3)) →
  NoDup (utxoId <$> (l1 ++ l2 ++ l3)) →
  duplicateErrors [] (l1 ++ a :: l2 ++ b :: l3) = [doubleSpendingError b].
Proof.
  intros Hsame Hothers Hnd.
  rewrite !fmap_app in Hothers, Hnd. rewrite !elem_of_app in Hothers.
  apply NoDup_app in Hnd as (Hnd1 & H1 & Hnd23).
  apply NoDup_app in Hnd23 as (Hnd2 & H2 & Hnd3).
  rewrite (duplicateErrors_app [] l1). change [] with (utxoKey <$> []) at 1.
  rewrite duplicateErrors_fresh; [|intros ? _; apply not_elem_of_nil|done].
  cbn [app duplicateErrors]. rewrite bool_decide_eq_false_2.
  2:{ rewrite utxoKey_elem_of. tauto. }
  cbn [app].
  replace ((utxoKey <$> l1) ++ [utxoKey a]) with (utxoKey <$> (l1 ++ [a]))
    by (by rewrite fmap_app).
  rewrite duplicateErrors_app, <- fmap_app.
  rewrite duplicateErrors_fresh; [|intros x Hx|done].
  2:{ rewrite fmap_app, elem_of_app. intros [Hin|Hin].
      - apply (H1 _ Hin). apply elem_of_app. left.
        by apply list_elem_of_fmap_2.
      - apply list_elem_of_singleton in Hin.
        apply Hothers. right. left. rewrite <- Hin.
        by apply list_elem_of_fmap_2. }
  cbn [app duplicateErrors]. rewrite bool_decide_eq_true_2.
  2:{ rewrite utxoKey_elem_of, <- Hsame, !fmap_app, !elem_of_app.
      left. right. left. }
  replace ((utxoKey <$> (l1 ++ [a]) ++ l2) ++ [utxoKey b])
    with (utxoKey <$> ((l1 ++ [a]) ++ l2) ++ [b]) by (by rewrite fmap_app).
  rewrite duplicateErrors_fresh; [done|intros x Hx|done].
  rewrite !fmap_app, !elem_of_app. intros [[[Hin|Hin]|Hin]|Hin].
  - apply (H1 _ Hin). apply elem_of_app. right.
    by apply list_elem_of_fmap_2.
  - apply list_elem_of_singleton in Hin. apply Hothers. right. right.
    rewrite <- Hin. by apply list_elem_of_fmap_2.
  - apply (H2 _ Hin). by apply list_elem_of_fmap_2.
  - apply list_elem_of_singleton in Hin. apply Hothers. right. right.
    rewrite Hsame, <- Hin. by apply list_elem_of_fmap_2.
Qed.
Lemma filter_eq_ofKind (e0 : ValidationError) l :
  filter (λ e, e = e0) l = filter (λ e, e = e0) (ofKind (kind e0) l).
Proof.
  induction l as [|e l IH]; [done|].
  unfold ofKind in *. rewrite !filter_cons.
  destruct (decide (e = e0)) as [->|Hne].
  - rewrite decide_True by done. rewrite filter_cons, decide_True by done.
    by rewrite IH.
  - destruct (decide (kind e = kind e0)); [|done].
    by rewrite filter_cons, decide_False.
Qed.

Lemma doubleSpendingError_ext x y :
  utxoId x = utxoId y → doubleSpendingError x = doubleSpendingError y.
Proof. unfold doubleSpendingError, ref_text. by intros ->. Qed.

(** C5. When two inputs of a transaction refer to the same output and no
    other input refers to it, exactly one DOUBLE_SPENDING error is reported
    for that output; it is emitted at the second of the two inputs, none at
    the first. The DOUBLE_SPENDING errors of the result are those of the
    repeated references, in input order; when no other reference is repeated
    that one error is the only DOUBLE_SPENDING error of the result. *)
Theorem double_spending_second_occurrence transaction pool l1 a l2 b l3 :
  inputs transaction = l1 ++ a :: l2 ++ b :: l3 →
  utxoId a = utxoId b →
  utxoId a ∉ (utxoId <$> (l1 ++ l2 ++ l3)) →
  let E := errors (validateTransaction verify transaction pool).1 in
  let first := length l1 in
  let second := (length l1 + S (length l2))%nat in
  ofKind DOUBLE_SPENDING E
  = omap (λ j,
      (λ input, createValidationError DOUBLE_SPENDING
                  ("UTXO duplicado: " +:+ ref_text input))
      <$> (inputs transaction !! j))
      (repeat_positions (inputs transaction))
  ∧ filter (refersTo (inputs transaction) (utxoId a))
           (repeat_positions (inputs transaction)) = [second]
  ∧ (first ∉ repeat_positions (inputs transaction))
  ∧ length (filter
              (λ e, e = createValidationError DOUBLE_SPENDING
                          ("UTXO duplicado: " +:+ ref_text a)) E) = 1%nat
  ∧ (NoDup (utxoId <$> (l1 ++ l2 ++ l3)) →
     ofKind DOUBLE_SPENDING E
     = [createValidationError DOUBLE_SPENDING
          ("UTXO duplicado: " +:+ ref_text b)]).
Proof.
  intros Hin Hsame Hothers E first second.
  assert (HE : ofKind DOUBLE_SPENDING E
               = omap (λ j, doubleSpendingError <$> (inputs transaction !! j))
                      (repeat_positions (inputs transaction))).
  { subst E. rewrite validateTransaction_run. cbn [fst errors].
    rewrite ofKind_double. apply duplicateErrors_repeat_positions. }
  pose proof (twice_repeat_positions l1 l2 l3 a b Hsame Hothers) as Hpos.
  pose proof (twice_first_not_repeat l1 l2 l3 a b Hothers) as Hfirst.
  rewrite <- Hin in Hpos, Hfirst.
  split; [exact HE|]. split; [exact Hpos|]. split; [exact Hfirst|].
  split.
  2:{ intros Hnd. subst E. rewrite validateTransaction_run. cbn [fst errors].
      rewrite ofKind_double, Hin. by apply twice_only_duplicate. }
  fold (doubleSpendingError a).
  rewrite filter_eq_ofKind. cbn [kind doubleSpendingError createValidationError].
  rewrite HE.
  rewrite (filter_omap _ _ (refersTo (inputs transaction) (utxoId a))).
  - rewrite Hpos. cbn [omap list_omap].
    pose proof (twice_second l1 l2 l3 a b) as Hb. rewrite <- Hin in Hb.
    by rewrite Hb.
  - intros j y Hy. unfold refersTo.
    destruct (inputs transaction !! j) as [x|]; [|done].
    injection Hy as <-. split.
    + intros Heq. simpl. f_equal. by apply doubleSpendingError_inj.
    + simpl. intros [= Heq]. by apply doubleSpendingError_ext.
  - intros j Hj. unfold refersTo.
    by destruct (inputs transaction !! j).
Qed.

(** *** Inputs whose output is not in the pool *)

Lemma inputTotal_app pool l l' :
  inputTotal pool (l ++ l') = inputTotal pool l + inputTotal pool l'.
Proof.
  induction l as [|x l IH]; [done|].
  cbn [app]. rewrite !inputTotal_cons, IH. lia.
Qed.

Lemma resolve_ext pool x y :
  utxoId x = utxoId y → resolve pool x = resolve pool y.
Proof. unfold resolve. by intros ->. Qed.

Lemma elem_of_allErrors e transaction pool :
  e ∈ allErrors verify transaction pool →
  kind e = INVALID_SIGNATURE →
  e ∈ inputErrors verify transaction pool (inputs transaction).
Proof.
  unfold allErrors. rewrite !elem_of_app.
  intros [H|[H|[H|[H|H]]]] Hk; [| |done| |]; exfalso.
  - pose proof (proj1 (Forall_forall _ _)
                  (structuralErrors_kind transaction) _ H) as Hs.
    simpl in Hs. destruct Hs; congruence.
  - pose proof (proj1 (Forall_forall _ _)
                  (duplicateErrors_kind [] (inputs transaction)) _ H) as Hs.
    simpl in Hs. congruence.
  - pose proof (proj1 (Forall_forall _ _) (balanceErrors_kind _ _) _ H) as Hs.
    simpl in Hs. congruence.
  - pose proof (proj1 (Forall_forall _ _) (negativeErrors_kind _) _ H) as Hs.
    simpl in Hs. congruence.
Qed.

Lemma invalidSignatureError_inj x y :
  invalidSignatureError x = invalidSignatureError y → utxoId x = utxoId y.
Proof.
  intros H. apply (f_equal message) in H.
  unfold invalidSignatureError, createValidationError in H. cbn [message] in H.
  apply ref_text_inj. by apply (inj (String.append _)) in H.
Qed.


(** *** The scenario of the twice-spent output *)

Lemma filter_all {A} (P : A → Prop) `{∀ x, Decision (P x)} (l : list A) :
  Forall P l → filter P l = l.
Proof.
  induction 1 as [|x l Hx _ IH]; [done|].
  by rewrite filter_cons, decide_True, IH.
Qed.

Lemma filter_none {A} (P : A → Prop) `{∀ x, Decision (P x)} (l : list A) :
  Forall (λ x, ¬ P x) l → filter P l = [].
Proof.
  induction 1 as [|x l Hx _ IH]; [done|].
  by rewrite filter_cons, decide_False.
Qed.

(** C2 (amended). On the pool that holds only output 0 of "A" (owner K,
    amount 10), a transaction whose two inputs both refer to that output,
    each with a signature that verifies under K, and whose two outputs sum
    to 20, gets exactly one DOUBLE_SPENDING error and no AMOUNT_MISMATCH
    error: each occurrence of the reference adds the amount, so the total of
    the inputs is 20. *)
Theorem twice_spent_scenario K sig1 sig2 tid ts o1 o2 pool transaction :
  pool = {[ ("A", 0) := mkUTXO (mkUtxoId "A" 0) K 10 ]} →
  transaction
  = mkTransaction tid
      [mkInput (mkUtxoId "A" 0) K sig1; mkInput (mkUtxoId "A" 0) K sig2]
      [o1; o2] ts →
  verify (createTransactionDataForSigning_ transaction) sig1 K = true →
  verify (createTransactionDataForSigning_ transaction) sig2 K = true →
  amount o1 + amount o2 = 20 →
  let run := validateTransaction_body verify transaction
               (mkFrame pool [] [] 0 0) in
  let E := errors (validateTransaction verify transaction pool).1 in
  ofKind DOUBLE_SPENDING E
  = [createValidationError DOUBLE_SPENDING
       "UTXO duplicado: txId=A, outputIndex=0"]
  ∧ ofKind AMOUNT_MISMATCH E = []
  ∧ totalInput run.2 = 20.
Proof.
  intros Hpool Htx Hs1 Hs2 Hsum run E. subst run E.
  rewrite validateTransaction_run, validateTransaction_body_run.
  cbn [fst snd errors totalInput].
  rewrite ofKind_double, ofKind_mismatch.
  assert (Hti : inputTotal pool (inputs transaction) = 20).
  { rewrite Htx. cbn [inputs]. rewrite !inputTotal_cons. unfold resolve.
    cbn [utxoId txId outputIndex]. rewrite Hpool, lookup_singleton_eq.
    done. }
  assert (Hto : outputTotal (outputs transaction) = 20).
  { rewrite Htx. cbn [outputs]. rewrite !outputTotal_cons.
    unfold outputTotal. simpl. lia. }
  rewrite Hti, Hto. split; [|done].
  rewrite Htx. cbn [inputs]. by vm_compute.
Qed.

(** *** The two validators *)

Lemma negativeErrors_positive l :
  Forall (λ output, 0 < amount output) l → negativeErrors l = [].
Proof.
  intros H. unfold negativeErrors. rewrite filter_none; [done|].
  eapply Forall_impl; [exact H|]. simpl. intros. lia.
Qed.

(** C10 (amended). The error list of the variant validator is the error list
    of the validator without its DOUBLE_SPENDING and NEGATIVE_AMOUNT entries;
    on a transaction with no repeated input reference and only positive
    output amounts the two validators return the same result. *)
Theorem variant_agrees_without_new_checks transaction pool :
  let r := (validateTransaction verify transaction pool).1 in
  let r' := (Variant.validateTransaction verify transaction pool).1 in
  errors r'
  = filter (λ e, kind e ≠ DOUBLE_SPENDING ∧ kind e ≠ NEGATIVE_AMOUNT)
           (errors r)
  ∧ (NoDup (utxoId <$> inputs transaction) →
     Forall (λ output, 0 < amount output) (outputs transaction) →
     r = r').
Proof.
  rewrite validateTransaction_run, variant_validateTransaction_run.
  cbn [fst errors]. split.
  - unfold allErrors, variantErrors. rewrite !filter_app.
    rewrite (filter_all _ (structuralErrors _)) by other_kind.
    rewrite (filter_none _ (duplicateErrors _ _)) by other_kind.
    rewrite (filter_all _ (inputErrors _ _ _ _)) by other_kind.
    rewrite (filter_all _ (balanceErrors _ _)) by other_kind.
    rewrite (filter_none _ (negativeErrors _)) by other_kind.
    by rewrite app_nil_r.
  - intros Hnd Hpos.
    assert (allErrors verify transaction pool
            = variantErrors verify transaction pool) as ->; [|done].
    unfold allErrors, variantErrors.
    change [] with (utxoKey <$> []) at 1.
    rewrite duplicateErrors_fresh;
      [|intros ? _; apply not_elem_of_nil|done].
    rewrite negativeErrors_positive by done.
    by rewrite app_nil_r.
Qed.


End ValidatorFacts.
(** ** Quoted strings can be read back *)

Section Json.

Lemma append_nil (b : string) : EmptyString +:+ b = b.
Proof. reflexivity. Qed.

Lemma append_cons c (a b : string) : String c a +:+ b = String c (a +:+ b).
Proof. reflexivity. Qed.

Lemma append_assoc (a b c : string) : (a +:+ b) +:+ c = a +:+ (b +:+ c).
Proof.
  induction a as [|x a IH]; [done|]. by rewrite !append_cons, IH.
Qed.

Lemma unquote_quote_char c r :
  unquote_char (quote_char c +:+ r) = Some (c, r).
Proof. destruct c as [[] [] [] [] [] [] [] []]; reflexivity. Qed.

Lemma unquote_char_dquote r : unquote_char (String dquote r) = None.
Proof. reflexivity. Qed.

Lemma quote_chars_inj s1 s2 r1 r2 :
  quote_chars s1 +:+ String dquote r1 = quote_chars s2 +:+ String dquote r2 →
  s1 = s2 ∧ r1 = r2.
Proof.
  revert s2. induction s1 as [|c1 s1 IH]; intros [|c2 s2] H;
    cbn [quote_chars] in H; rewrite ?append_nil in H.
  - by injection H as ->.
  - apply (f_equal unquote_char) in H.
    rewrite append_assoc, unquote_quote_char, unquote_char_dquote in H.
    discriminate.
  - apply (f_equal unquote_char) in H.
    rewrite append_assoc, unquote_quote_char, unquote_char_dquote in H.
    discriminate.
  - apply (f_equal unquote_char) in H.
    rewrite !append_assoc, !unquote_quote_char in H.
    injection H as -> H. by destruct (IH _ H) as [-> ->].
Qed.

Lemma quote_app s r :
  quote s +:+ r = String dquote (quote_chars s +:+ String dquote r).
Proof. unfold quote. by rewrite append_cons, append_assoc, append_cons. Qed.

Lemma quote_inj s1 s2 r1 r2 :
  quote s1 +:+ r1 = quote s2 +:+ r2 → s1 = s2 ∧ r1 = r2.
Proof.
  rewrite !quote_app. intros H. injection H as H. by apply quote_chars_inj.
Qed.
Lemma pretty_N_go_nonempty x s : s ≠ EmptyString → pretty_N_go x s ≠ EmptyString.
Proof.
  revert s. induction (N.lt_wf_0 x) as [x _ IH]; intros s Hs.
  destruct (decide (x = 0%N)) as [->|Hx].
  - by rewrite pretty_N_go_0.
  - rewrite pretty_N_go_step by lia. apply IH; [apply N.div_lt; lia|done].
Qed.

Lemma pretty_N_nonempty (x : N) : pretty x ≠ EmptyString.
Proof.
  unfold pretty, pretty_N. case_decide; [done|].
  rewrite pretty_N_go_step by lia. by apply pretty_N_go_nonempty.
Qed.

Lemma pretty_Z_nonempty (z : Z) : pretty z ≠ EmptyString.
Proof.
  destruct z as [|p|p]; unfold pretty, pretty_Z; [done| |done].
  apply pretty_N_nonempty.
Qed.


Lemma join_items x l r : join "," (x :: l) +:+ r = x +:+ items l r.
Proof.
  revert x. induction l as [|y l IH]; intros x.
  - done.
  - change (join "," (x :: y :: l)) with (x +:+ "," +:+ join "," (y :: l)).
    rewrite !append_assoc, IH. done.
Qed.


End Json.

(** * The properties on the concrete scenarios *)

(** The scenario of one input and one output of the same amount is valid. *)
Example txSingle_valid :
  (validateTransaction toy_verify txSingleSigned poolA).1
  = {| valid := true; errors := [] |}.
Proof. vm_compute. reflexivity. Qed.

Lemma txTwice_errors :
  errors (validateTransaction toy_verify txTwiceSigned poolA).1
  = [createValidationError DOUBLE_SPENDING
       "UTXO duplicado: txId=A, outputIndex=0"].
Proof. vm_compute. reflexivity. Qed.

Lemma txNegative_errors :
  errors (validateTransaction toy_verify txNegative poolA).1
  = [createValidationError EMPTY_INPUTS "La transacción no tiene entradas";
     createValidationError AMOUNT_MISMATCH
       "Suma de entradas (0) no coincide con suma de salidas (-5)";
     createValidationError NEGATIVE_AMOUNT
       "Output inválido con monto -5 para recipient=R"].
Proof. vm_compute. reflexivity. Qed.

(** C2, as stated, fails: the twice-spent output is counted twice, the totals
    are 20 and 20, and no AMOUNT_MISMATCH error is reported. *)
Lemma twice_spent_no_mismatch :
  let E := errors (validateTransaction toy_verify txTwiceSigned poolA).1 in
  ¬ (length (ofKind DOUBLE_SPENDING E) = 1%nat
     ∧ ∃ e, e ∈ E ∧ kind e = AMOUNT_MISMATCH).
Proof.
  intros E [_ (e & He & Hk)]. subst E. rewrite txTwice_errors in He.
  apply list_elem_of_singleton in He. subst e. discriminate Hk.
Qed.

Lemma twice_spent_scenario_witness :
  let E := errors (validateTransaction toy_verify txTwiceSigned poolA).1 in
  ofKind DOUBLE_SPENDING E
  = [createValidationError DOUBLE_SPENDING
       "UTXO duplicado: txId=A, outputIndex=0"]
  ∧ ofKind AMOUNT_MISMATCH E = []
  ∧ totalInput (validateTransaction_body toy_verify txTwiceSigned
                  (mkFrame poolA [] [] 0 0)).2 = 20.
Proof.
  apply (twice_spent_scenario toy_verify "K" sigTwice sigTwice "T2"
           1700000000 (mkOutput "R" 10) (mkOutput "S" 10) poolA
           txTwiceSigned).
  - reflexivity.
  - reflexivity.
  - vm_compute. reflexivity.
  - vm_compute. reflexivity.
  - reflexivity.
Defined.

(** C3, as stated, fails: the NEGATIVE_AMOUNT error of an output of -5 stands
    after the AMOUNT_MISMATCH error. *)
Lemma negative_after_mismatch :
  ¬ precedes NEGATIVE_AMOUNT AMOUNT_MISMATCH
      (errors (validateTransaction toy_verify txNegative poolA).1).
Proof.
  rewrite txNegative_errors. intros H.
  specialize (H 2%nat 1%nat _ _ eq_refl eq_refl eq_refl eq_refl). lia.
Qed.

Lemma double_spending_second_occurrence_witness :
  let E := errors (validateTransaction toy_verify txTwiceSigned poolA).1 in
  filter (refersTo (inputs txTwiceSigned) (mkUtxoId "A" 0))
         (repeat_positions (inputs txTwiceSigned)) = [1%nat]
  ∧ (0%nat ∉ repeat_positions (inputs txTwiceSigned))
  ∧ length (filter
              (λ e, e = createValidationError DOUBLE_SPENDING
                          ("UTXO duplicado: " +:+ ref_text (spendA sigTwice)))
              E) = 1%nat.
Proof.
  pose proof (double_spending_second_occurrence toy_verify txTwiceSigned poolA
                [] (spendA sigTwice) [] (spendA sigTwice) []
                eq_refl eq_refl (not_elem_of_nil _)) as (_ & H2 & H3 & H4 & _).
  exact (conj H2 (conj H3 H4)).
Defined.


(** On that transaction the missing output is reported and the balance check
    sees the amount of the other input only. *)
Example txMissing_errors :
  (validateTransaction toy_verify txMissingSigned poolA).1
  = {| valid := false;
       errors := [createValidationError UTXO_NOT_FOUND
                    "UTXO no encontrado para txId=B, outputIndex=1"] |}.
Proof. vm_compute. reflexivity. Qed.

(** C10, as stated, fails: on the twice-spent output the validator rejects
    the transaction and the variant accepts it. *)
Lemma validators_differ :
  let r := (validateTransaction toy_verify txTwiceSigned poolA).1 in
  let r' := (Variant.validateTransaction toy_verify txTwiceSigned poolA).1 in
  ¬ (valid r = valid r' ∧ kind <$> errors r ≡ₚ kind <$> errors r').
Proof. intros r r' [H _]. vm_compute in H. discriminate H. Qed.

Lemma variant_agrees_witness :
  (validateTransaction toy_verify txSingleSigned poolA).1
  = (Variant.validateTransaction toy_verify txSingleSigned poolA).1.
Proof.
  apply (variant_agrees_without_new_checks toy_verify txSingleSigned poolA).
  - apply NoDup_singleton.
  - apply Forall_cons; split; [reflexivity|apply Forall_nil_2].
Defined.


(** * Further properties of the two validators *)

Section Further.

Variable verify : string → string → string → bool.

Ltac kinds_differ :=
  eapply Forall_impl;
  [first [apply structuralErrors_kind | apply duplicateErrors_kind
         | apply inputErrors_kind | apply balanceErrors_kind
         | apply negativeErrors_kind]
  | simpl; intros ? ?; intuition congruence].

(** ** The errors of each kind *)

Lemma ofKind_input k transaction pool :
  k = UTXO_NOT_FOUND ∨ k = INVALID_SIGNATURE →
  ofKind k (allErrors verify transaction pool)
  = ofKind k (inputErrors verify transaction pool (inputs transaction)).
Proof.
  intros Hk. rewrite ofKind_allErrors.
  rewrite (ofKind_none _ (structuralErrors _)) by (destruct Hk; subst; kinds_differ).
  rewrite (ofKind_none _ (duplicateErrors _ _)) by (destruct Hk; subst; kinds_differ).
  rewrite (ofKind_none _ (balanceErrors _ _)) by (destruct Hk; subst; kinds_differ).
  rewrite (ofKind_none _ (negativeErrors _)) by (destruct Hk; subst; kinds_differ).
  by rewrite !app_nil_r.
Qed.

Lemma ofKind_structural k transaction pool :
  k = EMPTY_INPUTS ∨ k = EMPTY_OUTPUTS →
  ofKind k (allErrors verify transaction pool)
  = ofKind k (structuralErrors transaction).
Proof.
  intros Hk. rewrite ofKind_allErrors.
  rewrite (ofKind_none _ (duplicateErrors _ _)) by (destruct Hk; subst; kinds_differ).
  rewrite (ofKind_none _ (inputErrors _ _ _ _)) by (destruct Hk; subst; kinds_differ).
  rewrite (ofKind_none _ (balanceErrors _ _)) by (destruct Hk; subst; kinds_differ).
  rewrite (ofKind_none _ (negativeErrors _)) by (destruct Hk; subst; kinds_differ).
  by rewrite !app_nil_r.
Qed.

(** X1. The result has an EMPTY_INPUTS error exactly when the transaction has
    no input, and an EMPTY_OUTPUTS error exactly when it has no output; each
    occurs at most once, and both occur together on a transaction that has
    neither. *)
Theorem empty_lists_reported transaction pool :
  let E := errors (validateTransaction verify transaction pool).1 in
  ofKind EMPTY_INPUTS E
  = (if bool_decide (inputs transaction = [])
     then [createValidationError EMPTY_INPUTS
             "La transacción no tiene entradas"]
     else [])
  ∧ ofKind EMPTY_OUTPUTS E
    = (if bool_decide (outputs transaction = [])
       then [createValidationError EMPTY_OUTPUTS
               "La transacción no tiene salidas"]
       else []).
Proof.
  rewrite validateTransaction_run. cbn [fst errors].
  rewrite !ofKind_structural by auto. unfold structuralErrors.
  destruct (inputs transaction) as [|i l], (outputs transaction) as [|o l'];
    split; reflexivity.
Qed.

(** X2. The UTXO_NOT_FOUND errors of the result are, in input order, one for
    each input whose referenced output is not in the pool, and none for an
    input whose output is there. *)
Theorem not_found_errors transaction pool :
  ofKind UTXO_NOT_FOUND (errors (validateTransaction verify transaction pool).1)
  = (λ input,
       createValidationError UTXO_NOT_FOUND
         ("UTXO no encontrado para " +:+ ref_text input))
    <$> filter (λ input,
          pool !! (txId (utxoId input), outputIndex (utxoId input)) = None)
        (inputs transaction).
Proof.
  rewrite validateTransaction_run. cbn [fst errors].
  rewrite ofKind_input by auto.
  induction (inputs transaction) as [|x l IH]; [done|].
  rewrite inputErrors_cons, ofKind_app, IH, filter_cons.
  unfold inputError, resolve.
  destruct (pool !! (txId (utxoId x), outputIndex (utxoId x))) as [u|].
  - rewrite decide_False by done.
    by destruct (verify _ _ _).
  - by rewrite decide_True by done.
Qed.

(** X3. The INVALID_SIGNATURE errors of the result are, in input order, one
    for each input whose referenced output is in the pool and whose signature
    does not verify, under the owner the input claims, over the signing
    payload of the transaction. *)
Theorem invalid_signature_errors transaction pool :
  ofKind INVALID_SIGNATURE
    (errors (validateTransaction verify transaction pool).1)
  = (λ input,
       createValidationError INVALID_SIGNATURE
         ("Firma inválida para input de " +:+ ref_text input))
    <$> filter (λ input,
          is_Some (pool !! (txId (utxoId input), outputIndex (utxoId input)))
          ∧ verify (createTransactionDataForSigning_ transaction)
                   (signature input) (owner input) = false)
        (inputs transaction).
Proof.
  rewrite validateTransaction_run. cbn [fst errors].
  rewrite ofKind_input by auto.
  induction (inputs transaction) as [|x l IH]; [done|].
  rewrite inputErrors_cons, ofKind_app, IH, filter_cons.
  unfold inputError, resolve.
  destruct (pool !! (txId (utxoId x), outputIndex (utxoId x))) as [u|].
  - destruct (verify _ _ _) eqn:Hv.
    + rewrite decide_False; [done|]. intros [_ ?]. congruence.
    + rewrite decide_True; [done|]. split; [by eexists|done].
  - rewrite decide_False; [done|]. intros [[? ?] _]. congruence.
Qed.

(** ** Repeated references *)

Lemma duplicateErrors_nil_inv pre l :
  duplicateErrors (utxoKey <$> pre) l = [] →
  (∀ x, x ∈ l → utxoId x ∉ (utxoId <$> pre)) ∧ NoDup (utxoId <$> l).
Proof.
  revert pre. induction l as [|x l IH]; intros pre H.
  - split; [by intros ? ?%elem_of_nil|constructor].
  - cbn [duplicateErrors] in H. apply app_eq_nil in H as [Hx H].
    assert (Hfresh : utxoId x ∉ (utxoId <$> pre)).
    { intros Hin. apply utxoKey_elem_of in Hin.
      by rewrite bool_decide_eq_true_2 in Hx. }
    replace ((utxoKey <$> pre) ++ [utxoKey x]) with (utxoKey <$> (pre ++ [x]))
      in H by (by rewrite fmap_app).
    apply IH in H as [Hl Hnd]. split.
    + intros y [->|Hy]%elem_of_cons; [done|].
      intros Hin. apply (Hl y Hy). rewrite fmap_app, elem_of_app. by left.
    + rewrite fmap_cons. apply NoDup_cons. split; [|done].
      intros (y & Hxy & Hy)%list_elem_of_fmap.
      apply (Hl y Hy). rewrite fmap_app, elem_of_app. right.
      rewrite <- Hxy. left.
Qed.

(** X4. The result has no DOUBLE_SPENDING error exactly when no two inputs of
    the transaction refer to the same output. *)
Theorem double_spending_iff_repeated transaction pool :
  ofKind DOUBLE_SPENDING
    (errors (validateTransaction verify transaction pool).1) = []
  ↔ NoDup (utxoId <$> inputs transaction).
Proof.
  rewrite validateTransaction_run. cbn [fst errors]. rewrite ofKind_double.
  split.
  - intros H. change [] with (utxoKey <$> []) in H at 1.
    by apply duplicateErrors_nil_inv in H as [_ ?].
  - intros H. change [] with (utxoKey <$> []) at 1.
    apply duplicateErrors_fresh; [|done]. intros ? _. apply not_elem_of_nil.
Qed.

Lemma remove_dups_snoc_length {A} `{EqDecision A} (l : list A) (k : A) :
  length (remove_dups (l ++ [k]))
  = if decide (k ∈ l) then length (remove_dups l)
    else S (length (remove_dups l)).
Proof.
  destruct (decide (k ∈ l)) as [Hk|Hk].
  - apply Permutation_length, NoDup_Permutation; [apply NoDup_remove_dups..|].
    intros x. rewrite !elem_of_remove_dups, elem_of_app, list_elem_of_singleton.
    split; [intros [?| ->]; done|by left].
  - change (S (length (remove_dups l))) with (length (k :: remove_dups l)).
    apply Permutation_length, NoDup_Permutation.
    + apply NoDup_remove_dups.
    + apply NoDup_cons. split; [by rewrite elem_of_remove_dups|].
      apply NoDup_remove_dups.
    + intros x. rewrite elem_of_cons, !elem_of_remove_dups, elem_of_app,
        list_elem_of_singleton. tauto.
Qed.

Lemma duplicateErrors_count pre l :
  (length (duplicateErrors (utxoKey <$> pre) l)
   + length (remove_dups (utxoId <$> (pre ++ l))))%nat
  = (length l + length (remove_dups (utxoId <$> pre)))%nat.
Proof.
  revert pre. induction l as [|x l IH]; intros pre.
  - by rewrite app_nil_r.
  - cbn [duplicateErrors].
    replace ((utxoKey <$> pre) ++ [utxoKey x]) with (utxoKey <$> (pre ++ [x]))
      by (by rewrite fmap_app).
    specialize (IH (pre ++ [x])). rewrite <- app_assoc in IH. cbn [app] in IH.
    replace (utxoId <$> pre ++ [x]) with ((utxoId <$> pre) ++ [utxoId x])
      in IH by (by rewrite fmap_app).
    rewrite remove_dups_snoc_length in IH.
    rewrite length_app. cbn [length].
    destruct (decide (utxoId x ∈ utxoId <$> pre)) as [Hin|Hin].
    + rewrite bool_decide_eq_true_2 by (by apply utxoKey_elem_of).
      cbn [length]. lia.
    + rewrite bool_decide_eq_false_2 by (by rewrite utxoKey_elem_of).
      cbn [length]. lia.
Qed.

(** X5. The number of DOUBLE_SPENDING errors is the number of inputs less the
    number of distinct outputs they refer to: every reference to an output
    after the first one is reported, once. *)
Theorem double_spending_count transaction pool :
  (length (ofKind DOUBLE_SPENDING
             (errors (validateTransaction verify transaction pool).1))
   + length (remove_dups (utxoId <$> inputs transaction)))%nat
  = length (inputs transaction).
Proof.
  rewrite validateTransaction_run. cbn [fst errors]. rewrite ofKind_double.
  pose proof (duplicateErrors_count [] (inputs transaction)) as H.
  cbn in H. lia.
Qed.

(** ** Accepted transactions *)

Lemma structuralErrors_nil transaction :
  structuralErrors transaction = []
  ↔ inputs transaction ≠ [] ∧ outputs transaction ≠ [].
Proof.
  unfold structuralErrors.
  destruct (inputs transaction), (outputs transaction); simpl;
    split; try done; intros [? ?]; done.
Qed.

Lemma inputErrors_nil transaction pool l :
  inputErrors verify transaction pool l = []
  ↔ Forall (λ input,
      is_Some (resolve pool input)
      ∧ verify (createTransactionDataForSigning_ transaction)
               (signature input) (owner input) = true) l.
Proof.
  induction l as [|x l IH].
  - split; [constructor|done].
  - rewrite inputErrors_cons, Forall_cons, <- IH. unfold inputError.
    destruct (resolve pool x) as [u|].
    + destruct (verify _ _ _); simpl.
      * split; [intros ->; by split; [split; [eexists|]|]|by intros [_ ?]].
      * split; [done|]. by intros [[_ ?] _].
    + simpl. split; [done|]. intros [[[? ?] _] _]. done.
Qed.

Lemma balanceErrors_nil ti to : balanceErrors ti to = [] ↔ ti = to.
Proof.
  unfold balanceErrors. destruct (Z.eqb_spec ti to); simpl; split; done.
Qed.

Lemma negativeErrors_nil l :
  negativeErrors l = [] ↔ Forall (λ output, 0 < amount output) l.
Proof.
  induction l as [|x l IH].
  - split; [constructor|done].
  - rewrite negativeErrors_cons, Forall_cons, <- IH.
    destruct (Z.leb_spec (amount x) 0); simpl.
    + split; [done|]. intros [? _]. lia.
    + split; [by intros ->|by intros [_ ?]].
Qed.

Lemma allErrors_nil transaction pool :
  allErrors verify transaction pool = []
  ↔ inputs transaction ≠ [] ∧ outputs transaction ≠ []
    ∧ NoDup (utxoId <$> inputs transaction)
    ∧ Forall (λ input,
        is_Some (resolve pool input)
        ∧ verify (createTransactionDataForSigning_ transaction)
                 (signature input) (owner input) = true)
        (inputs transaction)
    ∧ inputTotal pool (inputs transaction)
      = outputTotal (outputs transaction)
    ∧ Forall (λ output, 0 < amount output) (outputs transaction).
Proof.
  unfold allErrors.
  rewrite !app_nil, structuralErrors_nil, inputErrors_nil, balanceErrors_nil,
    negativeErrors_nil.
  assert (duplicateErrors [] (inputs transaction) = []
          ↔ NoDup (utxoId <$> inputs transaction)) as ->; [|tauto].
  split.
  - intros H. change [] with (utxoKey <$> []) in H at 1.
    by apply duplicateErrors_nil_inv in H as [_ ?].
  - intros H. change [] with (utxoKey <$> []) at 1.
    apply duplicateErrors_fresh; [|done]. intros ? _. apply not_elem_of_nil.
Qed.

Lemma variantErrors_nil transaction pool :
  variantErrors verify transaction pool = []
  ↔ inputs transaction ≠ [] ∧ outputs transaction ≠ []
    ∧ Forall (λ input,
        is_Some (resolve pool input)
        ∧ verify (createTransactionDataForSigning_ transaction)
                 (signature input) (owner input) = true)
        (inputs transaction)
    ∧ inputTotal pool (inputs transaction)
      = outputTotal (outputs transaction).
Proof.
  unfold variantErrors.
  rewrite !app_nil, structuralErrors_nil, inputErrors_nil, balanceErrors_nil.
  tauto.
Qed.

(** X8. Whatever the validator accepts the variant accepts too, with the same
    result. *)
Theorem accepted_by_both transaction pool :
  valid (validateTransaction verify transaction pool).1 = true →
  (Variant.validateTransaction verify transaction pool).1
  = (validateTransaction verify transaction pool).1.
Proof.
  rewrite validateTransaction_run, variant_validateTransaction_run.
  cbn [fst valid]. intros H.
  apply bool_decide_eq_true, length_zero_iff_nil in H. rewrite H.
  apply allErrors_nil in H as (H1 & H2 & _ & H4 & H5 & _).
  assert (variantErrors verify transaction pool = []) as ->; [|done].
  by apply variantErrors_nil.
Qed.

(** X9. A transaction with no input and no output gets exactly the two
    errors EMPTY_INPUTS and EMPTY_OUTPUTS, in this order: the two totals are
    both 0, so the balance check passes. *)
Theorem empty_transaction_errors transaction pool :
  inputs transaction = [] → outputs transaction = [] →
  (validateTransaction verify transaction pool).1
  = {| valid := false;
       errors := [createValidationError EMPTY_INPUTS
                    "La transacción no tiene entradas";
                  createValidationError EMPTY_OUTPUTS
                    "La transacción no tiene salidas"] |}.
Proof.
  intros Hi Ho. rewrite validateTransaction_run. cbn [fst].
  unfold allErrors, structuralErrors. by rewrite Hi, Ho.
Qed.

(** ** What the result depends on *)

Lemma inputErrors_pool_ext transaction pool pool' l :
  Forall (λ input,
    utxo_amount <$> resolve pool input = utxo_amount <$> resolve pool' input) l →
  inputErrors verify transaction pool l = inputErrors verify transaction pool' l
  ∧ inputTotal pool l = inputTotal pool' l.
Proof.
  induction 1 as [|x l Hx _ [IHe IHt]]; [done|].
  rewrite !inputErrors_cons, !inputTotal_cons, IHe, IHt. unfold inputError.
  destruct (resolve pool x) as [u|], (resolve pool' x) as [u'|];
    simpl in Hx; try discriminate; [|done].
  injection Hx as ->. done.
Qed.

(** X10. The result of either validator depends on the pool only through the
    amounts of the outputs that the inputs refer to: two pools that agree on
    whether each referenced output is present, and on its amount, give the
    same result, whatever owner the entries record and whatever else the
    pools hold. *)
Theorem result_depends_on_referenced_amounts transaction pool pool' :
  (∀ input, input ∈ inputs transaction →
     utxo_amount
       <$> pool !! (txId (utxoId input), outputIndex (utxoId input))
     = utxo_amount
       <$> pool' !! (txId (utxoId input), outputIndex (utxoId input))) →
  (validateTransaction verify transaction pool).1
  = (validateTransaction verify transaction pool').1
  ∧ (Variant.validateTransaction verify transaction pool).1
    = (Variant.validateTransaction verify transaction pool').1.
Proof.
  intros H. apply Forall_forall in H.
  destruct (inputErrors_pool_ext transaction pool pool' _ H) as [He Ht].
  rewrite !validateTransaction_run, !variant_validateTransaction_run.
  cbn [fst]. unfold allErrors, variantErrors. by rewrite He, Ht.
Qed.

Lemma inputErrors_verify_ext (verify' : string → string → string → bool)
    transaction pool l :
  Forall (λ input,
    is_Some (resolve pool input) →
    verify (createTransactionDataForSigning_ transaction)
           (signature input) (owner input)
    = verify' (createTransactionDataForSigning_ transaction)
              (signature input) (owner input)) l →
  inputErrors verify transaction pool l
  = inputErrors verify' transaction pool l.
Proof.
  induction 1 as [|x l Hx _ IH]; [done|].
  rewrite !inputErrors_cons, IH. unfold inputError.
  destruct (resolve pool x) as [u|]; [|done].
  by rewrite Hx by (by eexists).
Qed.

(** X11. Either validator consults the signature check only on the signing
    payload of the transaction, with the signature and the claimed owner of
    an input whose output is in the pool: two checks that agree there give
    the same result. *)
Theorem result_depends_on_checked_signatures
    (verify' : string → string → string → bool) transaction pool :
  (∀ input, input ∈ inputs transaction →
     is_Some (pool !! (txId (utxoId input), outputIndex (utxoId input))) →
     verify (createTransactionDataForSigning_ transaction)
            (signature input) (owner input)
     = verify' (createTransactionDataForSigning_ transaction)
               (signature input) (owner input)) →
  (validateTransaction verify transaction pool).1
  = (validateTransaction verify' transaction pool).1
  ∧ (Variant.validateTransaction verify transaction pool).1
    = (Variant.validateTransaction verify' transaction pool).1.
Proof.
  intros H. apply Forall_forall in H.
  pose proof (inputErrors_verify_ext verify' transaction pool _ H) as He.
  rewrite !validateTransaction_run, !variant_validateTransaction_run.
  cbn [fst]. unfold allErrors, variantErrors. by rewrite He.
Qed.

(** X12. The text key of the duplicate check and the reference text of the
    messages are faithful: two inputs get the same key, or the same
    reference text, exactly when they refer to the same output (same
    transaction id and same index), also when a transaction id contains the
    separator. *)
Theorem key_and_reference_text_faithful (x y : TransactionInput) :
  (utxoKey x = utxoKey y ↔ utxoId x = utxoId y)
  ∧ (ref_text x = ref_text y ↔ utxoId x = utxoId y).
Proof.
  split; split.
  - apply utxoKey_inj.
  - unfold utxoKey. by intros ->.
  - apply ref_text_inj.
  - unfold ref_text. by intros ->.
Qed.

Lemma notFoundError_ext x y :
  utxoId x = utxoId y → notFoundError x = notFoundError y.
Proof. unfold notFoundError, ref_text. by intros ->. Qed.

Lemma same_references_errors transaction transaction' pool l l' seen :
  Forall2 (λ x y, utxoId x = utxoId y) l l' →
  duplicateErrors seen l = duplicateErrors seen l'
  ∧ filter (λ e, kind e ≠ INVALID_SIGNATURE)
           (inputErrors verify transaction pool l)
    = filter (λ e, kind e ≠ INVALID_SIGNATURE)
             (inputErrors verify transaction' pool l')
  ∧ inputTotal pool l = inputTotal pool l'.
Proof.
  intros H. revert seen.
  induction H as [|x y l l' Hxy _ IH]; intros seen; [done|].
  assert (Hk : utxoKey x = utxoKey y) by (unfold utxoKey; by rewrite Hxy).
  cbn [duplicateErrors]. rewrite <- Hk, (doubleSpendingError_ext x y Hxy).
  destruct (IH (seen ++ [utxoKey x])) as (-> & IHe & IHt).
  split; [done|].
  rewrite !inputErrors_cons, !inputTotal_cons, !filter_app, IHe, IHt.
  unfold inputError. rewrite <- (resolve_ext pool x y Hxy).
  destruct (resolve pool x) as [u|].
  - split; [|done]. f_equal.
    by do 2 destruct (verify _ _ _).
  - by rewrite (notFoundError_ext x y Hxy).
Qed.

(** X13. Only the INVALID_SIGNATURE errors depend on the id, the timestamp,
    the claimed owners and the signatures: two transactions whose inputs
    refer to the same outputs in the same order and whose outputs are the
    same get the same errors of every other kind, in the same order. *)
Theorem other_errors_ignore_signatures transaction transaction' pool :
  utxoId <$> inputs transaction = utxoId <$> inputs transaction' →
  outputs transaction = outputs transaction' →
  filter (λ e, kind e ≠ INVALID_SIGNATURE)
         (errors (validateTransaction verify transaction pool).1)
  = filter (λ e, kind e ≠ INVALID_SIGNATURE)
           (errors (validateTransaction verify transaction' pool).1).
Proof.
  intros Hin Hout.
  rewrite list_eq_Forall2, Forall2_fmap in Hin.
  destruct (same_references_errors transaction transaction' pool _ _ [] Hin)
    as (Hd & He & Ht).
  rewrite !validateTransaction_run. cbn [fst errors].
  unfold allErrors, structuralErrors. rewrite !filter_app.
  rewrite (Forall2_length _ _ _ Hin), Hout, Hd, He, Ht. done.
Qed.

End Further.

(** ** The further properties on the concrete scenarios *)

Lemma accepted_by_both_witness :
  (Variant.validateTransaction toy_verify txSingleSigned poolA).1
  = (validateTransaction toy_verify txSingleSigned poolA).1.
Proof.
  apply (accepted_by_both toy_verify txSingleSigned poolA).
  vm_compute. reflexivity.
Defined.

Lemma empty_transaction_errors_witness :
  (validateTransaction toy_verify txEmpty poolA).1
  = {| valid := false;
       errors := [createValidationError EMPTY_INPUTS
                    "La transacción no tiene entradas";
                  createValidationError EMPTY_OUTPUTS
                    "La transacción no tiene salidas"] |}.
Proof.
  apply (empty_transaction_errors toy_verify txEmpty poolA); reflexivity.
Defined.

Lemma result_depends_on_referenced_amounts_witness :
  (validateTransaction toy_verify txSingleSigned poolA).1
  = (validateTransaction toy_verify txSingleSigned poolB).1
  ∧ (Variant.validateTransaction toy_verify txSingleSigned poolA).1
    = (Variant.validateTransaction toy_verify txSingleSigned poolB).1.
Proof.
  apply (result_depends_on_referenced_amounts toy_verify txSingleSigned
           poolA poolB).
  intros input Hin. apply list_elem_of_singleton in Hin. subst input.
  vm_compute. reflexivity.
Defined.

Lemma result_depends_on_checked_signatures_witness :
  (validateTransaction toy_verify txSingleSigned poolA).1
  = (validateTransaction toy_verify_lax txSingleSigned poolA).1
  ∧ (Variant.validateTransaction toy_verify txSingleSigned poolA).1
    = (Variant.validateTransaction toy_verify_lax txSingleSigned poolA).1.
Proof.
  apply (result_depends_on_checked_signatures toy_verify toy_verify_lax
           txSingleSigned poolA).
  intros input Hin _. apply list_elem_of_singleton in Hin. subst input.
  vm_compute. reflexivity.
Defined.

Lemma other_errors_ignore_signatures_witness :
  filter (λ e, kind e ≠ INVALID_SIGNATURE)
         (errors (validateTransaction toy_verify txTwiceSigned poolA).1)
  = filter (λ e, kind e ≠ INVALID_SIGNATURE)
           (errors (validateTransaction toy_verify (txTwice EmptyString)
                      poolA).1).
Proof.
  apply (other_errors_ignore_signatures toy_verify txTwiceSigned
           (txTwice EmptyString) poolA); reflexivity.
Defined.

(** * Doubles that hold integers

    On the integers of magnitude below 2^53 the arithmetic of doubles is the
    arithmetic of integers: the sum of two of them is exact when it stays in
    the range, and the comparisons are those of the integers. *)

Section Doubles.

Lemma digits2_pos_bounds p :
  2 ^ (Zpos (digits2_pos p) - 1) ≤ Zpos p < 2 ^ Zpos (digits2_pos p).
Proof.
  induction p as [p IH|p IH|]; cbn [digits2_pos].
  - rewrite Pos2Z.inj_succ.
    replace (Z.succ (Zpos (digits2_pos p)) - 1) with (Zpos (digits2_pos p)) by lia.
    rewrite Z.pow_succ_r by lia.
    assert (2 ^ Zpos (digits2_pos p) = 2 * 2 ^ (Zpos (digits2_pos p) - 1)) as Hp.
    { rewrite <- Z.pow_succ_r by lia. f_equal. lia. }
    lia.
  - rewrite Pos2Z.inj_succ.
    replace (Z.succ (Zpos (digits2_pos p)) - 1) with (Zpos (digits2_pos p)) by lia.
    rewrite Z.pow_succ_r by lia.
    assert (2 ^ Zpos (digits2_pos p) = 2 * 2 ^ (Zpos (digits2_pos p) - 1)) as Hp.
    { rewrite <- Z.pow_succ_r by lia. f_equal. lia. }
    lia.
  - simpl. lia.
Qed.

Lemma digits2_pos_shiftl p k :
  Zpos (digits2_pos (Pos.shiftl p k)) = Zpos (digits2_pos p) + Z.of_N k.
Proof.
  destruct k as [|k]; [change (Pos.shiftl p 0) with p; cbn [Z.of_N]; lia|].
  change (Pos.shiftl p (N.pos k)) with (Pos.iter xO p k).
  change (Z.of_N (N.pos k)) with (Zpos k).
  induction k as [|k IH] using Pos.peano_ind.
  - cbn [Pos.iter digits2_pos]. rewrite Pos2Z.inj_succ. lia.
  - rewrite Pos.iter_succ. cbn [digits2_pos].
    rewrite !Pos2Z.inj_succ, IH. lia.
Qed.

Lemma Zpos_shiftl p k : Zpos (Pos.shiftl p k) = Zpos p * 2 ^ Z.of_N k.
Proof.
  destruct k as [|k];
    [change (Pos.shiftl p 0) with p; cbn [Z.of_N]; change (2 ^ 0) with 1; lia|].
  change (Pos.shiftl p (N.pos k)) with (Pos.iter xO p k).
  change (Z.of_N (N.pos k)) with (Zpos k).
  induction k as [|k IH] using Pos.peano_ind.
  - cbn [Pos.iter]. change (2 ^ 1) with 2. lia.
  - rewrite Pos.iter_succ, Pos2Z.inj_xO, IH.
    rewrite Pos2Z.inj_succ, Z.pow_succ_r by lia. lia.
Qed.

Lemma iter_pos_iter {A} (f : A → A) n x : iter_pos f n x = Pos.iter f x n.
Proof.
  revert x. induction n as [n IH|n IH|]; intros x; cbn [iter_pos Pos.iter].
  - by rewrite !IH, !Pos.iter_swap.
  - by rewrite !IH.
  - done.
Qed.

Lemma shr_exact m n :
  iter_pos shr_1 n (Build_shr_record (Zpos (Pos.iter xO m n)) false false)
  = Build_shr_record (Zpos m) false false.
Proof.
  rewrite iter_pos_iter.
  induction n as [|n IH] using Pos.peano_ind; [done|].
  rewrite Pos.iter_succ, <- Pos.iter_swap, Pos.iter_succ. exact IH.
Qed.

Lemma fexp_small d : -1021 ≤ d → fexp 53 1024 d = d - 53.
Proof. unfold fexp, emin. lia. Qed.

(** A mantissa of 53 bits with an exponent in range is kept as it is. *)
Lemma round_aux_exact s m e :
  Zpos (digits2_pos m) = 53 → -1074 ≤ e ≤ 971 →
  binary_round_aux 53 1024 s (Zpos m) e loc_Exact = S754_finite s m e.
Proof.
  intros Hd He. unfold binary_round_aux, shr_fexp.
  cbn [Zdigits2 shr_record_of_loc]. rewrite Hd.
  assert (fexp 53 1024 (53 + e) - e = 0) as -> by (unfold fexp, emin; lia).
  cbn [shr shr_m loc_of_shr_record round_nearest_even Zdigits2 shr_record_of_loc].
  rewrite Hd.
  assert (fexp 53 1024 (53 + e) - e = 0) as -> by (unfold fexp, emin; lia).
  cbn [shr shr_m].
  destruct (Z.leb_spec e (1024 - 53)); [done|lia].
Qed.

Lemma shiftl_shiftl p (a b : N) :
  Pos.shiftl (Pos.shiftl p a) b = Pos.shiftl p (a + b).
Proof.
  apply Pos2Z.inj. rewrite !Zpos_shiftl, N2Z.inj_add, Z.pow_add_r by lia. lia.
Qed.

Lemma canonical_round s p (j : N) :
  Zpos (digits2_pos p) ≤ 53 → Z.of_N j ≤ 1000 →
  binary_round 53 1024 s (Pos.shiftl p j) (- Z.of_N j)
  = S754_finite s (Pos.shiftl p (Z.to_N (53 - Zpos (digits2_pos p))))
                (Zpos (digits2_pos p) - 53).
Proof.
  intros Hd Hj. set (d := Zpos (digits2_pos p)) in *.
  assert (1 ≤ d) by (subst d; lia).
  unfold binary_round. rewrite digits2_pos_shiftl. fold d.
  replace (d + Z.of_N j + - Z.of_N j) with d by lia.
  rewrite fexp_small by lia. unfold shl_align.
  destruct (Z_lt_le_dec (d + Z.of_N j) 53) as [Hlt|Hge].
  - (* the mantissa is too short: it is shifted left *)
    destruct (d - 53 - - Z.of_N j) as [|q|q] eqn:Hq; [lia|lia|].
    replace (Pos.iter xO (Pos.shiftl p j) q)
      with (Pos.shiftl (Pos.shiftl p j) (N.pos q)) by done.
    rewrite shiftl_shiftl.
    replace (j + N.pos q)%N with (Z.to_N (53 - d)) by lia.
    apply round_aux_exact; [|lia].
    rewrite digits2_pos_shiftl. fold d. lia.
  - (* the mantissa is long enough: the extra zeros are shifted out *)
    assert (Pos.shiftl p j
            = Pos.shiftl (Pos.shiftl p (Z.to_N (53 - d)))
                         (Z.to_N (d + Z.of_N j - 53))) as Hp.
    { rewrite shiftl_shiftl. f_equal. lia. }
    destruct (d - 53 - - Z.of_N j) as [|q|q] eqn:Hq; [| |lia].
    + replace (- Z.of_N j) with (d - 53) by lia.
      rewrite Hp. replace (Z.to_N (d + Z.of_N j - 53)) with 0%N by lia.
      change (Pos.shiftl ?x 0) with x.
      apply round_aux_exact; [|lia].
      rewrite digits2_pos_shiftl. fold d. lia.
    + assert (iter_pos shr_1 q
                (Build_shr_record (Zpos (Pos.shiftl p j)) false false)
              = Build_shr_record
                  (Zpos (Pos.shiftl p (Z.to_N (53 - d)))) false false) as Hshr.
      { rewrite Hp. replace (Z.to_N (d + Z.of_N j - 53)) with (N.pos q) by lia.
        change (Pos.shiftl ?x (N.pos q)) with (Pos.iter xO x q).
        apply shr_exact. }
      unfold binary_round_aux, shr_fexp.
      cbn [Zdigits2 shr_record_of_loc]. rewrite digits2_pos_shiftl. fold d.
      replace (d + Z.of_N j + - Z.of_N j) with d by lia.
      rewrite fexp_small by lia. rewrite Hq. cbn [shr]. rewrite !Hshr.
      cbn [shr_m loc_of_shr_record round_nearest_even Zdigits2 shr_record_of_loc].
      rewrite digits2_pos_shiftl. fold d.
      replace (d + Z.of_N (Z.to_N (53 - d)) + (- Z.of_N j + Z.pos q))
        with (53 + (d - 53)) by lia.
      assert (fexp 53 1024 (53 + (d - 53)) - (- Z.of_N j + Z.pos q) = 0) as ->
        by (unfold fexp, emin; lia).
      cbn [shr shr_m].
      replace (- Z.of_N j + Z.pos q) with (d - 53) by lia.
      destruct (Z.leb_spec (d - 53) (1024 - 53)); [done|lia].
Qed.

Lemma safe_digits p : Zpos p < 2 ^ 53 → Zpos (digits2_pos p) ≤ 53.
Proof.
  intros Hp. pose proof (digits2_pos_bounds p) as [Hlo _].
  assert (2 ^ (Zpos (digits2_pos p) - 1) < 2 ^ 53) as Hlt by lia.
  apply Z.pow_lt_mono_r_iff in Hlt; lia.
Qed.

Lemma binary_round_safe s p :
  Zpos p < 2 ^ 53 →
  binary_round 53 1024 s p 0 = S754_finite s (Js.mant p) (Js.expo p).
Proof.
  intros Hp. apply (canonical_round s p 0); [by apply safe_digits|done].
Qed.

Lemma of_Z_pos p :
  Zpos p < 2 ^ 53 → Js.of_Z (Zpos p) = S754_finite false (Js.mant p) (Js.expo p).
Proof. apply binary_round_safe. Qed.

Lemma of_Z_neg p :
  Zpos p < 2 ^ 53 → Js.of_Z (Zneg p) = S754_finite true (Js.mant p) (Js.expo p).
Proof. apply binary_round_safe. Qed.

Lemma normalize_scaled z (J : Z) :
  Js.safe z → 0 ≤ J ≤ 1000 →
  binary_normalize 53 1024 (z * 2 ^ J) (- J) false = Js.of_Z z.
Proof.
  intros Hz HJ. unfold Js.safe in Hz.
  destruct z as [|c|c].
  - done.
  - assert (Zpos c * 2 ^ J = Zpos (Pos.shiftl c (Z.to_N J))) as ->.
    { rewrite Zpos_shiftl, Z2N.id by lia. done. }
    cbn [binary_normalize]. rewrite of_Z_pos by lia.
    replace (- J) with (- Z.of_N (Z.to_N J)) by lia.
    apply canonical_round; [apply safe_digits|]; lia.
  - assert (Zneg c * 2 ^ J = Zneg (Pos.shiftl c (Z.to_N J))) as ->.
    { change (Zneg c) with (- Zpos c).
      change (Zneg (Pos.shiftl c (Z.to_N J)))
        with (- Zpos (Pos.shiftl c (Z.to_N J))).
      rewrite Zpos_shiftl, Z2N.id by lia. lia. }
    cbn [binary_normalize]. rewrite of_Z_neg by lia.
    replace (- J) with (- Z.of_N (Z.to_N J)) by lia.
    apply canonical_round; [apply safe_digits|]; lia.
Qed.

Lemma expo_range p : Zpos p < 2 ^ 53 → -52 ≤ Js.expo p ≤ 0.
Proof. intros Hp. pose proof (safe_digits p Hp). unfold Js.expo. lia. Qed.

Lemma aligned p ez :
  Zpos p < 2 ^ 53 → -52 ≤ ez ≤ Js.expo p →
  Zpos (fst (shl_align (Js.mant p) (Js.expo p) ez)) = Zpos p * 2 ^ (- ez).
Proof.
  intros Hp Hez. pose proof (safe_digits p Hp) as Hd.
  assert (Zpos (Js.mant p) * 2 ^ (Js.expo p - ez) = Zpos p * 2 ^ (- ez)) as <-.
  { unfold Js.mant, Js.expo in *. rewrite Zpos_shiftl, Z2N.id by lia.
    rewrite <- Z.mul_assoc, <- Z.pow_add_r by lia. do 2 f_equal. lia. }
  unfold shl_align. destruct (ez - Js.expo p) as [|q|q] eqn:Hq; cbn [fst].
  - replace (Js.expo p - ez) with 0 by lia. change (2 ^ 0) with 1. lia.
  - lia.
  - change (Pos.iter xO (Js.mant p) q) with (Pos.shiftl (Js.mant p) (N.pos q)).
    rewrite Zpos_shiftl. do 2 f_equal. lia.
Qed.

(** Adding two Js.safe integers whose sum is Js.safe is exact. *)
Lemma add_exact a b :
  Js.safe a → Js.safe b → Js.safe (a + b) →
  SFadd 53 1024 (Js.of_Z a) (Js.of_Z b) = Js.of_Z (a + b).
Proof.
  unfold Js.safe. intros Ha Hb Hab.
  destruct a as [|pa|pa].
  { rewrite Z.add_0_l. change (Js.of_Z 0) with (S754_zero false).
    destruct b; rewrite ?of_Z_pos, ?of_Z_neg by lia; done. }
  all: destruct b as [|pb|pb];
    [rewrite Z.add_0_r; change (Js.of_Z 0) with (S754_zero false);
     rewrite ?of_Z_pos, ?of_Z_neg by lia; done|..].
  all: rewrite ?(of_Z_pos pa), ?(of_Z_neg pa), ?(of_Z_pos pb), ?(of_Z_neg pb)
    by lia; cbn [SFadd cond_Zopp].
  all: pose proof (expo_range pa ltac:(lia)); pose proof (expo_range pb ltac:(lia)).
  all: rewrite !aligned by lia.
  all: set (ez := Z.min (Js.expo pa) (Js.expo pb)).
  all: rewrite <- ?Z.mul_opp_l, <- Z.mul_add_distr_r.
  all: change (- Zpos pa) with (Zneg pa); change (- Zpos pb) with (Zneg pb).
  all: replace ez with (- - ez) at 2 by lia.
  all: apply normalize_scaled; unfold Js.safe; lia.
Qed.

Lemma shiftl_inj p q k : Pos.shiftl p k = Pos.shiftl q k → p = q.
Proof.
  intros H. apply (f_equal Zpos) in H. rewrite !Zpos_shiftl in H.
  apply Pos2Z.inj. apply Z.mul_cancel_r in H; [done|].
  apply Z.pow_nonzero; lia.
Qed.

Lemma canonical_inj p q :
  Js.mant p = Js.mant q → Js.expo p = Js.expo q → p = q.
Proof.
  unfold Js.mant, Js.expo. intros Hm He.
  assert (Zpos (digits2_pos p) = Zpos (digits2_pos q)) as Hd by lia.
  rewrite Hd in Hm. by apply shiftl_inj in Hm.
Qed.

Lemma of_Z_inj a b : Js.safe a → Js.safe b → Js.of_Z a = Js.of_Z b → a = b.
Proof.
  unfold Js.safe. intros Ha Hb.
  destruct a as [|pa|pa], b as [|pb|pb]; try done;
    rewrite ?(of_Z_pos pa), ?(of_Z_neg pa), ?(of_Z_pos pb), ?(of_Z_neg pb)
      by lia; change (Js.of_Z 0) with (S754_zero false); try discriminate.
  - intros [= Hm He]. f_equal. by apply canonical_inj.
  - intros [= Hm He]. f_equal. by apply canonical_inj.
Qed.

Lemma SFeqb_true_eq s m e s' m' e' :
  SFeqb (S754_finite s m e) (S754_finite s' m' e') = true →
  S754_finite s m e = S754_finite s' m' e'.
Proof.
  unfold SFeqb, SFcompare.
  destruct s, s'; try discriminate;
    destruct (Z.compare_spec e e') as [->| |]; try discriminate;
    change (Pos.compare_cont Eq m m') with (Pos.compare m m');
    destruct (Pos.compare_spec m m') as [->| |]; try discriminate; done.
Qed.

Lemma SFeqb_refl_finite s m e :
  SFeqb (S754_finite s m e) (S754_finite s m e) = true.
Proof.
  unfold SFeqb, SFcompare. rewrite Z.compare_refl.
  change (Pos.compare_cont Eq m m) with (Pos.compare m m).
  rewrite Pos.compare_refl. by destruct s.
Qed.

(** On Js.safe integers the comparison of doubles is the comparison of the
    integers. *)
Lemma eqb_exact a b :
  Js.safe a → Js.safe b → SFeqb (Js.of_Z a) (Js.of_Z b) = (a =? b).
Proof.
  intros Ha Hb. destruct (Z.eqb_spec a b) as [->|Hne].
  - unfold Js.safe in Hb.
    destruct b as [|pb|pb]; rewrite ?of_Z_pos, ?of_Z_neg by lia;
      [done|apply SFeqb_refl_finite..].
  - destruct (SFeqb (Js.of_Z a) (Js.of_Z b)) eqn:Heq; [|done].
    destruct Hne. apply of_Z_inj; [done..|].
    unfold Js.safe in Ha, Hb.
    destruct a as [|pa|pa], b as [|pb|pb];
      rewrite ?(of_Z_pos pa), ?(of_Z_neg pa), ?(of_Z_pos pb), ?(of_Z_neg pb)
        in * by lia; change (Js.of_Z 0) with (S754_zero false) in *;
      try discriminate; try done; by apply SFeqb_true_eq.
Qed.

Lemma leb_zero_exact a :
  Js.safe a → SFleb (Js.of_Z a) (S754_zero false) = (a <=? 0).
Proof.
  unfold Js.safe. intros Ha.
  destruct a as [|pa|pa]; rewrite ?of_Z_pos, ?of_Z_neg by lia; done.
Qed.

End Doubles.

(** * The validator on JavaScript values: the run of the method *)

Section JsValidatorFacts.

Variable verify : string → string → string → bool.
Variable Number_toString : Js.number → string.

Lemma js_duplicate_loop l st :
  Js.for_of l (λ input,
    let utxoKey := Js.utxoKey Number_toString input in
    seen ← Js.used_includes utxoKey;
    Js.when seen
      (Js.errors_push (Js.doubleSpendingError Number_toString input)) ;;
    Js.used_push utxoKey) st
  = (tt, Js.mkFrame (Js.utxoPool st)
           (Js.errors_ st
              ++ Js.duplicateErrors Number_toString (Js.used st) l)
           (Js.used st ++ (Js.utxoKey Number_toString <$> l))
           (Js.totalInput st) (Js.totalOutput st)).
Proof.
  revert st. induction l as [|x l IH]; intros [p e u ti to]; simpl.
  - by rewrite !app_nil_r.
  - unfold mbind, Js.M_bind, Js.used_includes, Js.used_push, Js.when; simpl.
    destruct (bool_decide (Js.utxoKey Number_toString x ∈ u)); simpl;
      rewrite IH; simpl; by rewrite <- ?app_assoc.
Qed.

Lemma js_resolvedAmounts_cons pool x l :
  Js.resolvedAmounts pool (x :: l)
  = match Js.resolve pool x with
    | Some u => [Js.utxo_amount u] | None => []
    end ++ Js.resolvedAmounts pool l.
Proof. unfold Js.resolvedAmounts; simpl. by destruct (Js.resolve pool x). Qed.

Lemma js_inputErrors_cons transaction pool x l :
  Js.inputErrors verify Number_toString transaction pool (x :: l)
  = match Js.inputError verify Number_toString transaction pool x with
    | Some e => [e] | None => []
    end ++ Js.inputErrors verify Number_toString transaction pool l.
Proof.
  unfold Js.inputErrors; simpl.
  by destruct (Js.inputError verify Number_toString transaction pool x).
Qed.

Lemma js_resolve_loop transaction l st :
  Js.for_of l (λ input,
    utxo ← Js.getUTXO (Js.txId input) (Js.outputIndex input);
    match utxo with
    | None => Js.errors_push (Js.notFoundError Number_toString input)
    | Some utxo =>
        Js.totalInput_add (Js.utxo_amount utxo) ;;
        let transactionData :=
          Js.createTransactionDataForSigning_ Number_toString transaction in
        let isValid :=
          verify transactionData (Js.signature input) (Js.owner input) in
        Js.when (negb isValid)
          (Js.errors_push (Js.invalidSignatureError Number_toString input))
    end) st
  = (tt, Js.mkFrame (Js.utxoPool st)
           (Js.errors_ st
              ++ Js.inputErrors verify Number_toString transaction
                   (Js.utxoPool st) l)
           (Js.used st)
           (foldl Js.add (Js.totalInput st)
                  (Js.resolvedAmounts (Js.utxoPool st) l))
           (Js.totalOutput st)).
Proof.
  revert st. induction l as [|x l IH]; intros [p e u ti to];
    cbn [Js.for_of Js.utxoPool Js.errors_ Js.used Js.totalInput
         Js.totalOutput].
  - simpl. by rewrite app_nil_r.
  - rewrite js_resolvedAmounts_cons, js_inputErrors_cons.
    unfold mbind, Js.M_bind, Js.getUTXO, Js.inputError; simpl.
    change (p (Js.txId x) (Js.outputIndex x)) with (Js.resolve p x).
    destruct (Js.resolve p x) as [w|]; simpl.
    + destruct (verify _ _ _); simpl; rewrite IH; simpl;
        rewrite <- ?app_assoc; done.
    + rewrite IH; simpl. by rewrite <- app_assoc.
Qed.

Lemma js_negativeErrors_cons x l :
  Js.negativeErrors Number_toString (x :: l)
  = (if Js.le_zero (Js.amount x)
     then [Js.negativeAmountError Number_toString x] else [])
    ++ Js.negativeErrors Number_toString l.
Proof.
  unfold Js.negativeErrors. rewrite filter_cons.
  destruct (Js.le_zero (Js.amount x)) eqn:E.
  - by rewrite decide_True.
  - by rewrite decide_False by done.
Qed.

Lemma js_sum_loop l st :
  Js.for_of l (λ output, Js.totalOutput_add (Js.amount output)) st
  = (tt, Js.mkFrame (Js.utxoPool st) (Js.errors_ st) (Js.used st)
           (Js.totalInput st)
           (foldl Js.add (Js.totalOutput st) (Js.amount <$> l))).
Proof.
  revert st. induction l as [|x l IH]; intros [p e u ti to];
    cbn [Js.for_of Js.utxoPool Js.errors_ Js.used Js.totalInput
         Js.totalOutput].
  - done.
  - unfold mbind, Js.M_bind; simpl. rewrite IH; simpl. done.
Qed.

Lemma js_negative_loop l st :
  Js.for_of l (λ output,
    Js.totalOutput_add (Js.amount output) ;;
    Js.when (Js.le_zero (Js.amount output))
      (Js.errors_push (Js.negativeAmountError Number_toString output))) st
  = (tt, Js.mkFrame (Js.utxoPool st)
           (Js.errors_ st ++ Js.negativeErrors Number_toString l)
           (Js.used st) (Js.totalInput st)
           (foldl Js.add (Js.totalOutput st) (Js.amount <$> l))).
Proof.
  revert st. induction l as [|x l IH]; intros [p e u ti to];
    cbn [Js.for_of Js.utxoPool Js.errors_ Js.used Js.totalInput
         Js.totalOutput].
  - simpl. by rewrite app_nil_r.
  - rewrite js_negativeErrors_cons.
    unfold mbind, Js.M_bind; simpl.
    destruct (Js.le_zero (Js.amount x)); simpl; rewrite IH; simpl;
      by rewrite <- ?app_assoc.
Qed.

Ltac js_frame_simpl :=
  cbn [fst snd Js.utxoPool Js.errors_ Js.used Js.totalInput Js.totalOutput
       app].

Lemma js_run_bind {A B} (m : Js.M A) (f : A → Js.M B) st :
  (m ≫= f) st = f (m st).1 (m st).2.
Proof. unfold mbind, Js.M_bind. by destruct (m st). Qed.

Lemma js_run_when c e st :
  Js.when c (Js.errors_push e) st
  = (tt, Js.mkFrame (Js.utxoPool st)
           (Js.errors_ st ++ if c then [e] else [])
           (Js.used st) (Js.totalInput st) (Js.totalOutput st)).
Proof. destruct st, c; simpl; by rewrite ?app_nil_r. Qed.

(** The method returns [Js.allErrors] and leaves the pool as it found it. *)
Lemma js_validateTransaction_run transaction pool :
  Js.validateTransaction verify Number_toString transaction pool
  = ({| valid :=
          bool_decide
            (length (Js.allErrors verify Number_toString transaction pool)
             = 0%nat);
        errors := Js.allErrors verify Number_toString transaction pool |},
     pool).
Proof.
  unfold Js.validateTransaction, Js.validateTransaction_body.
  rewrite js_run_bind, js_run_when; js_frame_simpl.
  rewrite js_run_bind, js_run_when; js_frame_simpl.
  rewrite js_run_bind, js_duplicate_loop; js_frame_simpl.
  rewrite js_run_bind, js_resolve_loop; js_frame_simpl.
  rewrite js_run_bind, js_sum_loop; js_frame_simpl.
  rewrite !js_run_bind; unfold Js.read; js_frame_simpl.
  rewrite js_run_when; js_frame_simpl.
  rewrite js_negative_loop; js_frame_simpl.
  unfold mret, Js.M_ret, Js.allErrors, Js.structuralErrors, Js.balanceErrors.
  rewrite <- !app_assoc. done.
Qed.

Lemma js_variant_validateTransaction_run transaction pool :
  Js.Variant.validateTransaction verify Number_toString transaction pool
  = ({| valid :=
          bool_decide
            (length (Js.variantErrors verify Number_toString transaction pool)
             = 0%nat);
        errors := Js.variantErrors verify Number_toString transaction pool |},
     pool).
Proof.
  unfold Js.Variant.validateTransaction, Js.Variant.validateTransaction_body.
  rewrite js_run_bind, js_run_when; js_frame_simpl.
  rewrite js_run_bind, js_run_when; js_frame_simpl.
  rewrite js_run_bind, js_resolve_loop; js_frame_simpl.
  rewrite js_run_bind, js_sum_loop; js_frame_simpl.
  rewrite !js_run_bind; unfold Js.read; js_frame_simpl.
  rewrite js_run_when; js_frame_simpl.
  unfold mret, Js.M_ret, Js.variantErrors, Js.structuralErrors,
    Js.balanceErrors.
  rewrite <- !app_assoc. done.
Qed.

End JsValidatorFacts.

(** * The signing payload of JavaScript values can be read back *)

Ltac number_char_yes :=
  unfold Js.number_char, chars; simpl;
  repeat first [apply list_elem_of_here | apply list_elem_of_further].

Ltac number_char_not :=
  let H := fresh in
  unfold Js.number_char, chars; simpl; intros H;
  repeat (apply elem_of_cons in H as [H|H]; [discriminate|]);
  by apply elem_of_nil in H.

Section JsJson.

Variable Number_toString : Js.number → string.

Lemma value_nested_ind (P : Js.value → Prop) :
  (∀ n, P (Js.VNum n)) →
  (∀ s, P (Js.VStr s)) →
  (∀ l, Forall P l → P (Js.VArr l)) →
  (∀ props, Forall (λ kv, P kv.2) props → P (Js.VObj props)) →
  ∀ v, P v.
Proof.
  intros Hn Hs Ha Ho. fix IH 1. intros [n|s|l|props].
  - apply Hn.
  - apply Hs.
  - apply Ha. induction l as [|v l IHl]; constructor; [apply IH|exact IHl].
  - apply Ho. induction props as [|[k v] props IHp]; constructor;
      [apply IH|exact IHp].
Qed.

(** [JSON.stringify] writes the text of the tree of number texts. *)
Lemma stringify_print v :
  Js.stringify Number_toString v = Js.print (Js.written Number_toString v).
Proof.
  induction v as [n|s|l IH|props IH] using value_nested_ind;
    cbn [Js.stringify Js.written Js.print]; [done|done| |].
  - do 3 f_equal. rewrite List.map_map.
    induction IH as [|v l Hv _ IHl]; [done|]. cbn [List.map]. by f_equal.
  - do 3 f_equal. rewrite List.map_map.
    induction IH as [|[k v] props Hv _ IHl]; [done|].
    cbn [List.map fst snd] in *. by rewrite Hv, IHl.
Qed.

Lemma number_prefix_unique (n1 n2 r1 r2 : list ascii) :
  Forall Js.number_char n1 → Forall Js.number_char n2 →
  match r1 with [] => True | c :: _ => ¬ Js.number_char c end →
  match r2 with [] => True | c :: _ => ¬ Js.number_char c end →
  n1 ++ r1 = n2 ++ r2 → n1 = n2 ∧ r1 = r2.
Proof.
  intros H1. revert n2. induction H1 as [|c n1 Hc H1 IH];
    intros n2 H2 Hr1 Hr2 H; destruct H2 as [|d n2 Hd H2]; simpl in H.
  - done.
  - subst r1. by destruct Hr1.
  - subst r2. by destruct Hr2.
  - injection H as -> H. by destruct (IH n2 H2 Hr1 Hr2 H) as [-> ->].
Qed.

Lemma js_delimited_chars r :
  Js.delimited r →
  match chars r with [] => True | c :: _ => ¬ Js.number_char c end.
Proof. by destruct r. Qed.

Lemma not_number_dquote : ¬ Js.number_char dquote.
Proof. number_char_not. Qed.
Lemma not_number_comma : ¬ Js.number_char ","%char.
Proof. number_char_not. Qed.
Lemma not_number_bracket : ¬ Js.number_char "]"%char.
Proof. number_char_not. Qed.
Lemma not_number_brace : ¬ Js.number_char "}"%char.
Proof. number_char_not. Qed.
Lemma not_number_open_bracket : ¬ Js.number_char "["%char.
Proof. number_char_not. Qed.
Lemma not_number_open_brace : ¬ Js.number_char "{"%char.
Proof. number_char_not. Qed.

Lemma js_delimited_items l close r :
  ¬ Js.number_char close → Js.delimited (items l (String close r)).
Proof.
  intros Hc. destruct l as [|x l]; [exact Hc|].
  cbn [items]. rewrite append_cons. exact not_number_comma.
Qed.

Lemma js_items_inj {A B} (enc : A → string) (f : A → B) (close : ascii)
    (l1 l2 : list A) r1 r2 :
  Forall (Js.readable enc f) l1 →
  ¬ Js.number_char close → close ≠ ","%char →
  items (List.map enc l1) (String close r1)
  = items (List.map enc l2) (String close r2) →
  List.map f l1 = List.map f l2 ∧ r1 = r2.
Proof.
  intros Hl Hc Hcomma. revert l2.
  induction Hl as [|x l1 Hx _ IH]; intros [|y l2] H;
    cbn [List.map items] in H; rewrite ?append_cons, ?append_nil in H.
  - by injection H as ->.
  - by injection H as -> _.
  - by injection H as <- _.
  - injection H as H.
    apply Hx in H as [Hxy H]; [|by apply js_delimited_items..].
    destruct (IH _ H) as [Hl ->]. cbn [List.map]. by rewrite Hxy, Hl.
Qed.

Lemma js_join_close_inj {A B} (enc : A → string) (f : A → B) (close : ascii)
    (l1 l2 : list A) r1 r2 :
  Forall (Js.readable enc f) l1 →
  (∀ x, ∃ c s, enc x = String c s ∧ c ≠ close) →
  ¬ Js.number_char close → close ≠ ","%char →
  join "," (List.map enc l1) +:+ String close r1
  = join "," (List.map enc l2) +:+ String close r2 →
  List.map f l1 = List.map f l2 ∧ r1 = r2.
Proof.
  intros Hl Hhead Hc Hcomma H.
  destruct Hl as [|x l1 Hx Hl]; destruct l2 as [|y l2];
    cbn [List.map] in H; rewrite ?join_items in H.
  - cbn [join] in H. rewrite !append_nil in H. by injection H as ->.
  - cbn [join] in H. rewrite append_nil in H.
    destruct (Hhead y) as (c & s & Hy & Hne). rewrite Hy, append_cons in H.
    injection H as H _. congruence.
  - cbn [join] in H. rewrite append_nil in H.
    destruct (Hhead x) as (c & s & Hy & Hne). rewrite Hy, append_cons in H.
    injection H as H _. congruence.
  - apply Hx in H as [Hxy H]; [|by apply js_delimited_items..].
    destruct (js_items_inj enc f close l1 l2 r1 r2 Hl Hc Hcomma H)
      as [Hl' ->].
    cbn [List.map]. by rewrite Hxy, Hl'.
Qed.

Lemma js_stringify_arr l r :
  Js.stringify Number_toString (Js.VArr l) +:+ r
  = String "["
      (join "," (List.map (Js.stringify Number_toString) l) +:+ String "]" r).
Proof.
  cbn [Js.stringify]. by rewrite !append_assoc, !append_cons, !append_nil.
Qed.

Lemma js_stringify_obj props r :
  Js.stringify Number_toString (Js.VObj props) +:+ r
  = String "{"
      (join ","
         (List.map (λ kv, quote kv.1 +:+ ":"
                          +:+ Js.stringify Number_toString kv.2) props)
         +:+ String "}" r).
Proof.
  cbn [Js.stringify]. by rewrite !append_assoc, !append_cons, !append_nil.
Qed.

Hypothesis printer : Js.prints_numbers Number_toString.

Lemma number_json_head n :
  ∃ c s, Js.number_json Number_toString n = String c s ∧ Js.number_char c.
Proof.
  destruct (printer n) as [Hne Hall].
  destruct (Js.number_json Number_toString n) as [|c s]; [done|].
  exists c, s. split; [done|]. by apply Forall_cons in Hall as [? _].
Qed.

Lemma number_json_delimited n1 n2 r1 r2 :
  Js.delimited r1 → Js.delimited r2 →
  Js.number_json Number_toString n1 +:+ r1
  = Js.number_json Number_toString n2 +:+ r2 →
  Js.number_json Number_toString n1 = Js.number_json Number_toString n2
  ∧ r1 = r2.
Proof.
  intros Hr1 Hr2 H. apply (f_equal chars) in H. rewrite !chars_app in H.
  apply number_prefix_unique in H as [Hn Hr];
    [|apply printer|apply printer
     |by apply js_delimited_chars|by apply js_delimited_chars].
  by apply chars_inj in Hn, Hr.
Qed.

Lemma number_json_first n r c s :
  Js.number_json Number_toString n +:+ r = String c s → Js.number_char c.
Proof.
  destruct (number_json_head n) as (d & t & -> & Hd).
  rewrite append_cons. by intros [= <- _].
Qed.

(** The first character of a serialized value tells its sort. *)
Lemma js_stringify_head v :
  ∃ c s, Js.stringify Number_toString v = String c s
         ∧ (Js.number_char c ∨ c = dquote ∨ c = "["%char ∨ c = "{"%char).
Proof.
  destruct v as [n|s|l|props]; cbn [Js.stringify].
  - destruct (number_json_head n) as (c & s & -> & Hc). eauto.
  - unfold quote. eauto 10.
  - rewrite append_cons. eauto 10.
  - rewrite append_cons. eauto 10.
Qed.

(** A serialized value followed by delimited text determines what was
    written and the text. *)
Lemma js_stringify_readable v :
  Js.readable (Js.stringify Number_toString) (Js.written Number_toString) v.
Proof.
  induction v as [n|s|l IH|props IH] using value_nested_ind;
    intros v2 r1 r2 Hr1 Hr2 H.
  - destruct v2 as [n2|s2|l2|props2].
    + cbn [Js.stringify] in H. cbn [Js.written].
      by destruct (number_json_delimited _ _ _ _ Hr1 Hr2 H) as [-> ->].
    + cbn [Js.stringify] in H. rewrite quote_app in H.
      apply number_json_first in H. by destruct not_number_dquote.
    + rewrite js_stringify_arr in H. cbn [Js.stringify] in H.
      apply number_json_first in H. by destruct not_number_open_bracket.
    + rewrite js_stringify_obj in H. cbn [Js.stringify] in H.
      apply number_json_first in H. by destruct not_number_open_brace.
  - destruct v2 as [n2|s2|l2|props2].
    + cbn [Js.stringify] in H. rewrite quote_app in H. symmetry in H.
      apply number_json_first in H. by destruct not_number_dquote.
    + cbn [Js.stringify] in H. by destruct (quote_inj _ _ _ _ H) as [-> ->].
    + rewrite js_stringify_arr in H. cbn [Js.stringify] in H.
      rewrite quote_app in H. discriminate.
    + rewrite js_stringify_obj in H. cbn [Js.stringify] in H.
      rewrite quote_app in H. discriminate.
  - rewrite js_stringify_arr in H. destruct v2 as [n2|s2|l2|props2].
    + cbn [Js.stringify] in H. symmetry in H.
      apply number_json_first in H. by destruct not_number_open_bracket.
    + cbn [Js.stringify] in H. rewrite quote_app in H. discriminate.
    + rewrite js_stringify_arr in H. injection H as H.
      eapply js_join_close_inj in H as [Hl ->];
        [cbn [Js.written]; by rewrite Hl|exact IH| |
         exact not_number_bracket|done].
      intros x. destruct (js_stringify_head x) as (c & s & -> & Hc).
      exists c, s. split; [done|]. intros ->.
      destruct Hc as [Hc|[Hc|[Hc|Hc]]]; [|discriminate..].
      by destruct not_number_bracket.
    + rewrite js_stringify_obj in H. discriminate.
  - rewrite js_stringify_obj in H. destruct v2 as [n2|s2|l2|props2].
    + cbn [Js.stringify] in H. symmetry in H.
      apply number_json_first in H. by destruct not_number_open_brace.
    + cbn [Js.stringify] in H. rewrite quote_app in H. discriminate.
    + rewrite js_stringify_arr in H. discriminate.
    + rewrite js_stringify_obj in H. injection H as H.
      eapply (js_join_close_inj _
                (λ kv, (kv.1, Js.written Number_toString kv.2)))
        in H as [Hl ->];
        [cbn [Js.written]; by rewrite Hl| | |exact not_number_brace|done].
      * eapply Forall_impl; [exact IH|].
        intros [k v] Hv [k2 v2] s1 s2 Hs1 Hs2 Hkv. cbn [fst snd] in *.
        rewrite !append_assoc in Hkv.
        apply quote_inj in Hkv as [-> Hkv].
        rewrite !append_cons, !append_nil in Hkv. injection Hkv as Hkv.
        by destruct (Hv _ _ _ Hs1 Hs2 Hkv) as [-> ->].
      * intros [k v]. cbn [fst snd]. rewrite quote_app.
        eexists _, _. split; [done|]. discriminate.
Qed.

(** Two values are written as the same text exactly when they are the same
    up to the text of their numbers. *)
Lemma js_stringify_written v1 v2 :
  Js.stringify Number_toString v1 = Js.stringify Number_toString v2
  ↔ Js.written Number_toString v1 = Js.written Number_toString v2.
Proof.
  split.
  - intros H.
    assert (Js.stringify Number_toString v1 +:+ EmptyString
            = Js.stringify Number_toString v2 +:+ EmptyString) as H'
      by (by rewrite H).
    by destruct (js_stringify_readable v1 v2 EmptyString EmptyString I I H').
  - intros H. by rewrite !stringify_print, H.
Qed.

End JsJson.

(** * The validator on JavaScript values: the balance of the amounts *)

Section JsBalance.

Variable verify : string → string → string → bool.
Variable Number_toString : Js.number → string.

Lemma js_structuralErrors_kind transaction :
  Forall (λ e, kind e = EMPTY_INPUTS ∨ kind e = EMPTY_OUTPUTS)
         (Js.structuralErrors transaction).
Proof.
  unfold Js.structuralErrors.
  repeat case_bool_decide; simpl;
    repeat first [apply Forall_nil_2 | apply Forall_cons_2; [simpl; auto|]].
Qed.

Lemma js_duplicateErrors_kind seen l :
  Forall (λ e, kind e = DOUBLE_SPENDING)
         (Js.duplicateErrors Number_toString seen l).
Proof.
  revert seen. induction l as [|x l IH]; intros seen; simpl; [constructor|].
  apply Forall_app; split; [|apply IH].
  case_bool_decide; repeat constructor.
Qed.

Lemma js_inputErrors_kind transaction pool l :
  Forall (λ e, kind e = UTXO_NOT_FOUND ∨ kind e = INVALID_SIGNATURE)
         (Js.inputErrors verify Number_toString transaction pool l).
Proof.
  apply Forall_forall. intros e He.
  apply list_elem_of_omap in He as (x & _ & Hx).
  unfold Js.inputError in Hx.
  destruct (Js.resolve pool x); [destruct (verify _ _ _)|]; simplify_eq; auto.
Qed.

Lemma js_balanceErrors_kind ti to :
  Forall (λ e, kind e = AMOUNT_MISMATCH)
         (Js.balanceErrors Number_toString ti to).
Proof. unfold Js.balanceErrors. destruct (Js.neq _ _); repeat constructor. Qed.

Lemma js_negativeErrors_kind l :
  Forall (λ e, kind e = NEGATIVE_AMOUNT)
         (Js.negativeErrors Number_toString l).
Proof.
  apply Forall_forall. intros e He.
  by apply list_elem_of_fmap in He as (x & -> & _).
Qed.

Ltac js_other_kind :=
  eapply Forall_impl;
  [first [apply js_structuralErrors_kind | apply js_duplicateErrors_kind
         | apply js_inputErrors_kind | apply js_balanceErrors_kind
         | apply js_negativeErrors_kind]
  | simpl; intros ? ?; intuition congruence].

Lemma js_ofKind_mismatch transaction pool :
  ofKind AMOUNT_MISMATCH
    (Js.allErrors verify Number_toString transaction pool)
  = Js.balanceErrors Number_toString
      (Js.inputTotal pool (Js.inputs transaction))
      (Js.outputTotal (Js.outputs transaction)).
Proof.
  unfold Js.allErrors. rewrite !ofKind_app.
  rewrite (ofKind_none _ (Js.structuralErrors _)) by js_other_kind.
  rewrite (ofKind_none _ (Js.duplicateErrors _ _ _)) by js_other_kind.
  rewrite (ofKind_none _ (Js.inputErrors _ _ _ _ _)) by js_other_kind.
  rewrite (ofKind_none _ (Js.negativeErrors _ _)) by js_other_kind.
  rewrite ofKind_all by apply js_balanceErrors_kind. by rewrite app_nil_r.
Qed.

Lemma magnitude_nonneg l : 0 ≤ Js.magnitude l.
Proof. induction l as [|x l IH]; simpl; lia. Qed.

Lemma sumZ_magnitude l : Z.abs (Js.sumZ l) ≤ Js.magnitude l.
Proof. induction l as [|x l IH]; simpl; lia. Qed.

Lemma foldl_add_exact l a :
  Z.abs a + Js.magnitude l < 2 ^ 53 →
  foldl Js.add (Js.of_Z a) (Js.of_Z <$> l) = Js.of_Z (a + Js.sumZ l).
Proof.
  revert a. induction l as [|x l IH]; intros a Ha; simpl in *.
  - by rewrite Z.add_0_r.
  - pose proof (magnitude_nonneg l).
    unfold Js.add at 2. rewrite add_exact by (unfold Js.safe; lia).
    rewrite IH by lia. f_equal. lia.
Qed.

(** The total of integer amounts is their sum, as long as the absolute
    values add up to less than 2^53. *)
Lemma total_exact l :
  Js.magnitude l < 2 ^ 53 → Js.total (Js.of_Z <$> l) = Js.of_Z (Js.sumZ l).
Proof.
  intros H. unfold Js.total.
  change Js.zero with (Js.of_Z 0). by rewrite foldl_add_exact.
Qed.

Lemma neq_exact a b :
  Js.safe a → Js.safe b →
  Js.neq (Js.of_Z a) (Js.of_Z b) = true ↔ a ≠ b.
Proof.
  intros Ha Hb. unfold Js.neq. rewrite eqb_exact by done.
  destruct (Z.eqb_spec a b); simpl; split; intros; congruence.
Qed.

(** C6 (amended). The result has an AMOUNT_MISMATCH error exactly when the
    two totals, added up as doubles from 0 in the order of the inputs and of
    the outputs, compare different; it is then the only error of its kind,
    and its message holds the text of both totals. When the amounts of the
    entries found and of the outputs are integers whose absolute values add
    up to less than 2^53 on each side, the totals are the exact sums, and
    the error is there exactly when the sums differ. *)
Theorem amount_mismatch_of_totals transaction pool :
  let r :=
    (Js.validateTransaction verify Number_toString transaction pool).1 in
  let found := Js.resolvedAmounts pool (Js.inputs transaction) in
  let paid := Js.amount <$> Js.outputs transaction in
  let ti := foldl Js.add Js.zero found in
  let to := foldl Js.add Js.zero paid in
  ofKind AMOUNT_MISMATCH (errors r)
  = (if Js.neq ti to
     then [createValidationError AMOUNT_MISMATCH
             ("Suma de entradas (" +:+ Number_toString ti
                +:+ ") no coincide con suma de salidas ("
                +:+ Number_toString to +:+ ")")]
     else [])
  ∧ ∀ ias oas : list Z,
      found = Js.of_Z <$> ias → paid = Js.of_Z <$> oas →
      Js.magnitude ias < 2 ^ 53 → Js.magnitude oas < 2 ^ 53 →
      ti = Js.of_Z (Js.sumZ ias) ∧ to = Js.of_Z (Js.sumZ oas)
      ∧ ((∃ e, e ∈ errors r ∧ kind e = AMOUNT_MISMATCH)
         ↔ Js.sumZ ias ≠ Js.sumZ oas).
Proof.
  intros r found paid ti to.
  assert (Hk : ofKind AMOUNT_MISMATCH (errors r)
               = Js.balanceErrors Number_toString ti to).
  { subst r. rewrite js_validateTransaction_run. simpl.
    by rewrite js_ofKind_mismatch. }
  split; [exact Hk|].
  intros ias oas Hf Hp Hi Ho.
  assert (Hti : ti = Js.of_Z (Js.sumZ ias)).
  { subst ti. rewrite Hf. by apply total_exact. }
  assert (Hto : to = Js.of_Z (Js.sumZ oas)).
  { subst to. rewrite Hp. by apply total_exact. }
  split; [done|split; [done|]].
  pose proof (sumZ_magnitude ias). pose proof (sumZ_magnitude oas).
  assert (Hneq : Js.neq ti to = true ↔ Js.sumZ ias ≠ Js.sumZ oas).
  { rewrite Hti, Hto. apply neq_exact; unfold Js.safe; lia. }
  rewrite <- Hneq. unfold Js.balanceErrors in Hk. split.
  - intros (e & He & Hke).
    assert (e ∈ ofKind AMOUNT_MISMATCH (errors r)) as Hin
      by (by apply list_elem_of_filter).
    rewrite Hk in Hin. destruct (Js.neq ti to); [done|].
    by apply elem_of_nil in Hin.
  - intros Hne. exists (Js.amountMismatchError Number_toString ti to).
    assert (Js.amountMismatchError Number_toString ti to
            ∈ ofKind AMOUNT_MISMATCH (errors r)) as Hin.
    { rewrite Hk, Hne. left. }
    apply list_elem_of_filter in Hin as [_ Hin]. done.
Qed.

End JsBalance.

(** * The validator on JavaScript values: the scenarios *)

(** C6, as stated, fails: an entry of 2^53 is spent into outputs of 2^53 and
    1; the amounts found add up to 2^53 and the amounts paid to 2^53 + 1,
    but as doubles both totals are 2^53, and the transaction is accepted
    without an AMOUNT_MISMATCH error. *)
Lemma rounded_totals_hide_mismatch :
  Js.resolvedAmounts (Js.poolOf (2 ^ 53))
    (Js.inputs (Js.txSplitSigned (2 ^ 53) 1))
  = Js.of_Z <$> [2 ^ 53]
  ∧ Js.amount <$> Js.outputs (Js.txSplitSigned (2 ^ 53) 1)
    = Js.of_Z <$> [2 ^ 53; 1]
  ∧ Js.sumZ [2 ^ 53] ≠ Js.sumZ [2 ^ 53; 1]
  ∧ ofKind AMOUNT_MISMATCH
      (errors (Js.validateTransaction toy_verify Js.integer_text
                 (Js.txSplitSigned (2 ^ 53) 1) (Js.poolOf (2 ^ 53))).1)
    = []
  ∧ valid (Js.validateTransaction toy_verify Js.integer_text
             (Js.txSplitSigned (2 ^ 53) 1) (Js.poolOf (2 ^ 53))).1
    = true.
Proof.
  split; [vm_compute; reflexivity|].
  split; [vm_compute; reflexivity|].
  split; [vm_compute; discriminate|].
  split; vm_compute; reflexivity.
Qed.

Lemma amount_mismatch_of_totals_witness :
  (∃ e, e ∈ errors (Js.validateTransaction toy_verify Js.integer_text
                      (Js.txSplitSigned 4 5) (Js.poolOf 10)).1
        ∧ kind e = AMOUNT_MISMATCH)
  ↔ Js.sumZ [10] ≠ Js.sumZ [4; 5].
Proof.
  destruct (amount_mismatch_of_totals toy_verify Js.integer_text
              (Js.txSplitSigned 4 5) (Js.poolOf 10)) as [_ H].
  apply (H [10] [4; 5]); vm_compute; reflexivity.
Defined.

(** * The validator on JavaScript values: accepted transactions *)

Section JsAccepted.

Variable verify : string → string → string → bool.
Variable Number_toString : Js.number → string.

Lemma js_structuralErrors_nil transaction :
  Js.structuralErrors transaction = []
  ↔ Js.inputs transaction ≠ [] ∧ Js.outputs transaction ≠ [].
Proof.
  unfold Js.structuralErrors.
  destruct (Js.inputs transaction), (Js.outputs transaction); simpl;
    split; try done; intros [? ?]; done.
Qed.

Lemma js_duplicateErrors_nil seen l :
  Js.duplicateErrors Number_toString seen l = []
  ↔ (∀ x, x ∈ l → Js.utxoKey Number_toString x ∉ seen)
    ∧ NoDup (Js.utxoKey Number_toString <$> l).
Proof.
  revert seen. induction l as [|x l IH]; intros seen.
  - split; [|done]. intros _. split; [by intros ? ?%elem_of_nil|constructor].
  - cbn [Js.duplicateErrors]. rewrite app_nil, IH, fmap_cons, NoDup_cons.
    split.
    + intros (Hx & Hl & Hnd).
      assert (Js.utxoKey Number_toString x ∉ seen) as Hfresh.
      { intros Hin. by rewrite bool_decide_eq_true_2 in Hx. }
      split; [|split; [|done]].
      * intros y [->|Hy]%elem_of_cons; [done|].
        intros Hin. apply (Hl y Hy). rewrite elem_of_app. by left.
      * intros (y & Hxy & Hy)%list_elem_of_fmap.
        apply (Hl y Hy). rewrite elem_of_app. right. rewrite <- Hxy. left.
    + intros (Hl & Hx & Hnd). split; [|split; [|done]].
      * rewrite bool_decide_eq_false_2; [done|]. apply Hl. left.
      * intros y Hy [Hin|Hin%list_elem_of_singleton]%elem_of_app.
        -- apply (Hl y); [by right|done].
        -- apply Hx. rewrite <- Hin. apply list_elem_of_fmap. eauto.
Qed.

Lemma js_inputErrors_nil transaction pool l :
  Js.inputErrors verify Number_toString transaction pool l = []
  ↔ Forall (λ input,
      is_Some (Js.resolve pool input)
      ∧ verify (Js.createTransactionDataForSigning_ Number_toString
                  transaction)
               (Js.signature input) (Js.owner input) = true) l.
Proof.
  induction l as [|x l IH].
  - split; [constructor|done].
  - rewrite js_inputErrors_cons, Forall_cons, <- IH. unfold Js.inputError.
    destruct (Js.resolve pool x) as [u|].
    + destruct (verify _ _ _); simpl.
      * split; [intros ->; by split; [split; [eexists|]|]|by intros [_ ?]].
      * split; [done|]. by intros [[_ ?] _].
    + simpl. split; [done|]. intros [[[? ?] _] _]. done.
Qed.

Lemma js_balanceErrors_nil ti to :
  Js.balanceErrors Number_toString ti to = [] ↔ Js.neq ti to = false.
Proof.
  unfold Js.balanceErrors. destruct (Js.neq ti to); simpl; split; done.
Qed.

Lemma js_negativeErrors_nil l :
  Js.negativeErrors Number_toString l = []
  ↔ Forall (λ output, Js.le_zero (Js.amount output) = false) l.
Proof.
  induction l as [|x l IH].
  - split; [constructor|done].
  - rewrite js_negativeErrors_cons, Forall_cons, <- IH.
    destruct (Js.le_zero (Js.amount x)); simpl.
    + split; [done|]. by intros [? _].
    + split; [by intros ->|by intros [_ ?]].
Qed.

Lemma js_allErrors_nil transaction pool :
  Js.allErrors verify Number_toString transaction pool = []
  ↔ Js.inputs transaction ≠ [] ∧ Js.outputs transaction ≠ []
    ∧ NoDup (Js.utxoKey Number_toString <$> Js.inputs transaction)
    ∧ Forall (λ input,
        is_Some (Js.resolve pool input)
        ∧ verify (Js.createTransactionDataForSigning_ Number_toString
                    transaction)
                 (Js.signature input) (Js.owner input) = true)
        (Js.inputs transaction)
    ∧ Js.neq (Js.inputTotal pool (Js.inputs transaction))
             (Js.outputTotal (Js.outputs transaction)) = false
    ∧ Forall (λ output, Js.le_zero (Js.amount output) = false)
             (Js.outputs transaction).
Proof.
  unfold Js.allErrors.
  rewrite !app_nil, js_structuralErrors_nil, js_inputErrors_nil,
    js_balanceErrors_nil, js_negativeErrors_nil, js_duplicateErrors_nil.
  assert (∀ x, x ∈ Js.inputs transaction
               → Js.utxoKey Number_toString x ∉ @nil string)
    by (intros ? _; apply not_elem_of_nil).
  tauto.
Qed.

Lemma js_variantErrors_nil transaction pool :
  Js.variantErrors verify Number_toString transaction pool = []
  ↔ Js.inputs transaction ≠ [] ∧ Js.outputs transaction ≠ []
    ∧ Forall (λ input,
        is_Some (Js.resolve pool input)
        ∧ verify (Js.createTransactionDataForSigning_ Number_toString
                    transaction)
                 (Js.signature input) (Js.owner input) = true)
        (Js.inputs transaction)
    ∧ Js.neq (Js.inputTotal pool (Js.inputs transaction))
             (Js.outputTotal (Js.outputs transaction)) = false.
Proof.
  unfold Js.variantErrors.
  rewrite !app_nil, js_structuralErrors_nil, js_inputErrors_nil,
    js_balanceErrors_nil.
  tauto.
Qed.

(** X6. The validator accepts a transaction exactly when it has an input
    and an output, no two inputs have the same key text, every input refers
    to an entry of the pool and carries a signature that verifies under the
    owner it claims, the total of the amounts found and the total of the
    output amounts, added up as doubles, compare equal, and no output amount
    compares at most 0. *)
Theorem accepted_iff_all_checks transaction pool :
  valid (Js.validateTransaction verify Number_toString transaction pool).1
  = true
  ↔ Js.inputs transaction ≠ [] ∧ Js.outputs transaction ≠ []
    ∧ NoDup (Js.utxoKey Number_toString <$> Js.inputs transaction)
    ∧ Forall (λ input,
        is_Some (pool (Js.txId input) (Js.outputIndex input))
        ∧ verify (Js.createTransactionDataForSigning_ Number_toString
                    transaction)
                 (Js.signature input) (Js.owner input) = true)
        (Js.inputs transaction)
    ∧ SFeqb (foldl Js.add Js.zero
               (Js.resolvedAmounts pool (Js.inputs transaction)))
            (foldl Js.add Js.zero (Js.amount <$> Js.outputs transaction))
      = true
    ∧ Forall (λ output, SFleb (Js.amount output) Js.zero = false)
             (Js.outputs transaction).
Proof.
  rewrite js_validateTransaction_run. cbn [fst valid].
  rewrite bool_decide_eq_true, length_zero_iff_nil, js_allErrors_nil.
  unfold Js.neq, Js.inputTotal, Js.outputTotal, Js.total, Js.le_zero,
    Js.resolve.
  rewrite negb_false_iff. done.
Qed.

(** X7. The variant validator accepts a transaction exactly when it has an
    input and an output, every input refers to an entry of the pool and
    carries a signature that verifies, and the two totals compare equal;
    repeated keys and output amounts that are not positive do not make it
    reject. *)
Theorem variant_accepted_iff transaction pool :
  valid (Js.Variant.validateTransaction verify Number_toString
           transaction pool).1 = true
  ↔ Js.inputs transaction ≠ [] ∧ Js.outputs transaction ≠ []
    ∧ Forall (λ input,
        is_Some (pool (Js.txId input) (Js.outputIndex input))
        ∧ verify (Js.createTransactionDataForSigning_ Number_toString
                    transaction)
                 (Js.signature input) (Js.owner input) = true)
        (Js.inputs transaction)
    ∧ SFeqb (foldl Js.add Js.zero
               (Js.resolvedAmounts pool (Js.inputs transaction)))
            (foldl Js.add Js.zero (Js.amount <$> Js.outputs transaction))
      = true.
Proof.
  rewrite js_variant_validateTransaction_run. cbn [fst valid].
  rewrite bool_decide_eq_true, length_zero_iff_nil, js_variantErrors_nil.
  unfold Js.neq, Js.inputTotal, Js.outputTotal, Js.total, Js.resolve.
  rewrite negb_false_iff. done.
Qed.

Lemma elem_magnitude a l : a ∈ l → Z.abs a ≤ Js.magnitude l.
Proof.
  induction l as [|x l IH]; [by intros ?%elem_of_nil|].
  pose proof (magnitude_nonneg l).
  intros [->|Hin]%elem_of_cons; simpl; [lia|]. specialize (IH Hin). lia.
Qed.

Lemma elem_le_sumZ a l : Forall (λ x, 0 < x) l → a ∈ l → a ≤ Js.sumZ l.
Proof.
  induction 1 as [|x l Hx Hl IH]; [by intros ?%elem_of_nil|].
  assert (0 ≤ Js.sumZ l).
  { clear IH. induction Hl as [|z l Hz _ IHl]; simpl; [done|lia]. }
  intros [->|Hin]%elem_of_cons; simpl; [lia|]. specialize (IH Hin). lia.
Qed.

(** X14. An accepted transaction whose amounts are integers in the range
    where doubles are exact creates no value: when the amounts of the
    entries found and of the outputs are integers whose absolute values add
    up to less than 2^53 on each side, the output amounts sum to exactly the
    sum of the amounts found, and each of them is positive and at most that
    sum. *)
Theorem accepted_conserves_safe_value transaction pool (ias oas : list Z) :
  valid (Js.validateTransaction verify Number_toString transaction pool).1
  = true →
  Js.resolvedAmounts pool (Js.inputs transaction) = Js.of_Z <$> ias →
  Js.amount <$> Js.outputs transaction = Js.of_Z <$> oas →
  Js.magnitude ias < 2 ^ 53 → Js.magnitude oas < 2 ^ 53 →
  Js.sumZ oas = Js.sumZ ias
  ∧ ∀ a, a ∈ oas → 0 < a ≤ Js.sumZ ias.
Proof.
  rewrite js_validateTransaction_run. cbn [fst valid].
  intros H Hf Hp Hi Ho.
  apply bool_decide_eq_true, length_zero_iff_nil, js_allErrors_nil in H
    as (_ & _ & _ & _ & Hsum & Hpos).
  unfold Js.inputTotal, Js.outputTotal in Hsum.
  rewrite Hf, Hp, !total_exact in Hsum by done.
  pose proof (sumZ_magnitude ias). pose proof (sumZ_magnitude oas).
  assert (Js.sumZ ias = Js.sumZ oas) as Heq.
  { destruct (decide (Js.sumZ ias = Js.sumZ oas)) as [|Hne]; [done|].
    apply neq_exact in Hne; [congruence|unfold Js.safe; lia..]. }
  assert (Forall (λ n, Js.le_zero n = false)
                 (Js.amount <$> Js.outputs transaction)) as Hpos'
    by (by apply Forall_fmap).
  rewrite Hp in Hpos'. apply Forall_fmap in Hpos'.
  assert (Forall (λ a, 0 < a) oas) as Hgt.
  { apply Forall_forall. intros a Ha.
    pose proof (elem_magnitude a oas Ha).
    pose proof (proj1 (Forall_forall _ _) Hpos' a Ha) as Hle.
    cbn in Hle. unfold Js.le_zero in Hle.
    rewrite leb_zero_exact in Hle by (unfold Js.safe; lia).
    apply Z.leb_gt in Hle. done. }
  split; [done|]. intros a Ha. split.
  - by apply (proj1 (Forall_forall _ _) Hgt).
  - rewrite Heq. by apply elem_le_sumZ.
Qed.

End JsAccepted.

Lemma accepted_conserves_safe_value_witness :
  Js.sumZ [4; 6] = Js.sumZ [10] ∧ ∀ a, a ∈ [4; 6] → 0 < a ≤ Js.sumZ [10].
Proof.
  apply (accepted_conserves_safe_value toy_verify Js.integer_text
           (Js.txSplitSigned 4 6) (Js.poolOf 10) [10] [4; 6]);
    vm_compute; reflexivity.
Defined.

(** * The signing payload of JavaScript values *)

Section JsPayload.

Variable Number_toString : Js.number → string.

Lemma written_inputs_inj (ins ins' : list Js.TransactionInput) :
  List.map (Js.written Number_toString)
    (List.map (λ input,
       Js.VObj [("utxoId", Js.utxoId input);
                ("owner", Js.VStr (Js.owner input))]) ins)
  = List.map (Js.written Number_toString)
      (List.map (λ input,
         Js.VObj [("utxoId", Js.utxoId input);
                  ("owner", Js.VStr (Js.owner input))]) ins')
  ↔ (λ input, (Js.written Number_toString (Js.utxoId input), Js.owner input))
      <$> ins
    = (λ input, (Js.written Number_toString (Js.utxoId input), Js.owner input))
        <$> ins'.
Proof.
  revert ins'. induction ins as [|x ins IH]; intros [|x' ins'];
    cbn [List.map fmap list_fmap Js.written fst snd].
  - done.
  - split; intros H; discriminate H.
  - split; intros H; discriminate H.
  - split; intros H; injection H as H1 H2 H; f_equal;
      try (by apply IH); congruence.
Qed.

Lemma unsigned_inputs_eq (ins ins' : list Js.TransactionInput) :
  (λ input, (Js.utxoId input, Js.owner input)) <$> ins
  = (λ input, (Js.utxoId input, Js.owner input)) <$> ins' →
  List.map (λ input,
    Js.VObj [("utxoId", Js.utxoId input);
             ("owner", Js.VStr (Js.owner input))]) ins
  = List.map (λ input,
      Js.VObj [("utxoId", Js.utxoId input);
               ("owner", Js.VStr (Js.owner input))]) ins'.
Proof.
  revert ins'. induction ins as [|x ins IH]; intros [|x' ins'] H;
    try discriminate H; [done|].
  injection H as H1 H2 H. cbn [List.map]. rewrite H1, H2. f_equal.
  by apply IH.
Qed.

Lemma written_unsignedTx t t' :
  Js.written Number_toString (Js.unsignedTx t)
  = Js.written Number_toString (Js.unsignedTx t')
  ↔ Js.signingFields Number_toString t = Js.signingFields Number_toString t'.
Proof.
  unfold Js.unsignedTx, Js.signingFields.
  cbn [Js.written List.map fst snd].
  split.
  - intros H. injection H as Hi Hins Houts Hts.
    apply written_inputs_inj in Hins.
    rewrite Hi, Hins, Hts. do 2 f_equal. exact Houts.
  - intros H. injection H as Hi Hins Houts Hts.
    apply written_inputs_inj in Hins.
    rewrite Hi, Hins, Hts. do 6 f_equal. exact Houts.
Qed.


End JsPayload.

Lemma number_text_null : Js.number_text "null".
Proof.
  split; [done|]. unfold chars; simpl.
  repeat (apply Forall_cons_2; [number_char_yes|]). apply Forall_nil_2.
Qed.

Lemma numeral_number_char c : numeral_char c → Js.number_char c.
Proof.
  unfold numeral_char, chars; simpl. intros H.
  repeat (apply elem_of_cons in H as [->|H]; [number_char_yes|]).
  by apply elem_of_nil in H.
Qed.

(** The text of numbers of the scenarios is made of the characters of a
    number. *)
Lemma integer_text_prints : Js.prints_numbers Js.integer_text.
Proof.
  assert (∀ z : Z, Js.number_text (pretty z)) as Hz.
  { intros z. split; [apply pretty_Z_nonempty|].
    eapply Forall_impl; [apply pretty_Z_numeral|].
    apply numeral_number_char. }
  intros [s| | |s m e]; cbn [Js.number_json];
    [apply Hz|apply number_text_null..|apply Hz].
Qed.



(** * The two embeddings agree on integers in the safe range *)

Section Agreement.

Variable verify : string → string → string → bool.
Variable Number_toString : Js.number → string.

(** The text of an integer that a double holds exactly is its decimal
    numeral. *)
Hypothesis Number_toString_safe :
  ∀ z, Js.safe z → Number_toString (Js.of_Z z) = pretty z.

Lemma of_Z_cases z :
  Js.safe z →
  Js.of_Z z = S754_zero false ∨ ∃ s m e, Js.of_Z z = S754_finite s m e.
Proof.
  intros Hz. destruct z as [|p|p].
  - by left.
  - right. rewrite of_Z_pos by (unfold Js.safe in Hz; lia). eauto.
  - right. rewrite of_Z_neg by (unfold Js.safe in Hz; lia). eauto.
Qed.

Lemma number_json_safe z :
  Js.safe z → Js.number_json Number_toString (Js.of_Z z) = pretty z.
Proof.
  intros Hz. rewrite <- (Number_toString_safe z Hz).
  destruct (of_Z_cases z Hz) as [->|(s & m & e & ->)]; done.
Qed.

Lemma js_utxoKey_input x :
  Js.safe (outputIndex (utxoId x)) →
  Js.utxoKey Number_toString (js_input x) = utxoKey x.
Proof.
  intros Hx. unfold Js.utxoKey, utxoKey.
  change (Js.txId (js_input x)) with (txId (utxoId x)).
  change (Js.outputIndex (js_input x))
    with (Js.of_Z (outputIndex (utxoId x))).
  by rewrite Number_toString_safe.
Qed.

Lemma js_ref_text_input x :
  Js.safe (outputIndex (utxoId x)) →
  Js.ref_text Number_toString (js_input x) = ref_text x.
Proof.
  intros Hx. unfold Js.ref_text, ref_text.
  change (Js.txId (js_input x)) with (txId (utxoId x)).
  change (Js.outputIndex (js_input x))
    with (Js.of_Z (outputIndex (utxoId x))).
  by rewrite Number_toString_safe.
Qed.

Lemma js_duplicateErrors_inputs seen l :
  Forall (λ input, Js.safe (outputIndex (utxoId input))) l →
  Js.duplicateErrors Number_toString seen (js_input <$> l)
  = duplicateErrors seen l.
Proof.
  intros Hl. revert seen. induction Hl as [|x l Hx _ IH]; intros seen.
  - done.
  - rewrite fmap_cons. cbn [Js.duplicateErrors duplicateErrors].
    unfold Js.doubleSpendingError, doubleSpendingError.
    by rewrite js_utxoKey_input, js_ref_text_input, IH.
Qed.

Lemma to_Z_of_Z z : Js.safe z → Js.to_Z (Js.of_Z z) = z.
Proof.
  assert (∀ p, Zpos p < 2 ^ 53 →
               Z.shiftl (Zpos (Js.mant p)) (Js.expo p) = Zpos p) as Hp.
  { intros p Hlt. pose proof (safe_digits p Hlt).
    unfold Js.mant, Js.expo.
    rewrite Z.shiftl_div_pow2, Zpos_shiftl by lia.
    rewrite Z2N.id by lia.
    replace (- (Zpos (digits2_pos p) - 53)) with (53 - Zpos (digits2_pos p))
      by lia.
    apply Z.div_mul. apply Z.pow_nonzero; lia. }
  intros Hz. unfold Js.safe in Hz. destruct z as [|p|p].
  - done.
  - rewrite of_Z_pos by lia. cbn [Js.to_Z]. apply Hp. lia.
  - rewrite of_Z_neg by lia. cbn [Js.to_Z]. rewrite Hp by lia. done.
Qed.

Lemma SFeqb_of_Z_refl z : Js.safe z → SFeqb (Js.of_Z z) (Js.of_Z z) = true.
Proof. intros Hz. rewrite eqb_exact by done. apply Z.eqb_refl. Qed.

Lemma js_resolve_input pool x :
  Js.safe (outputIndex (utxoId x)) →
  Js.resolve (js_pool pool) (js_input x) = js_utxo <$> resolve pool x.
Proof.
  intros Hx. unfold Js.resolve, js_pool, resolve.
  change (Js.txId (js_input x)) with (txId (utxoId x)).
  change (Js.outputIndex (js_input x))
    with (Js.of_Z (outputIndex (utxoId x))).
  by rewrite to_Z_of_Z, SFeqb_of_Z_refl.
Qed.

Lemma js_resolvedAmounts_inputs pool l :
  Forall (λ input, Js.safe (outputIndex (utxoId input))) l →
  Js.resolvedAmounts (js_pool pool) (js_input <$> l)
  = Js.of_Z <$> omap (λ input, utxo_amount <$> resolve pool input) l.
Proof.
  induction 1 as [|x l Hx _ IH]; [done|].
  rewrite fmap_cons, js_resolvedAmounts_cons, js_resolve_input, IH by done.
  cbn [omap list_omap]. by destruct (resolve pool x).
Qed.

Lemma js_amount_outputs (l : list TransactionOutput) :
  Js.amount <$> (js_output <$> l) = Js.of_Z <$> (amount <$> l).
Proof. induction l as [|x l IH]; [done|]. rewrite !fmap_cons, IH. done. Qed.

Lemma stringify_outputs (l : list TransactionOutput) :
  Js.magnitude (amount <$> l) < 2 ^ 53 →
  List.map (Js.stringify Number_toString) (js_output <$> l)
  = List.map stringify
      (List.map (λ output,
         JObj [("recipient", JStr (recipient output));
               ("amount", JNum (amount output))]) l).
Proof.
  induction l as [|x l IH]; [done|]. intros Hm.
  pose proof (magnitude_nonneg (amount <$> l)).
  rewrite fmap_cons in Hm. simpl in Hm.
  cbn [List.map fmap list_fmap]. f_equal; [|apply IH; lia].
  cbn [js_output Js.stringify stringify List.map fst snd].
  rewrite number_json_safe by (unfold Js.safe; lia). done.
Qed.

Lemma stringify_inputs l :
  Forall (λ input, Js.safe (outputIndex (utxoId input))) l →
  List.map (Js.stringify Number_toString)
    (List.map (λ input,
       Js.VObj [("utxoId", Js.utxoId input);
                ("owner", Js.VStr (Js.owner input))]) (js_input <$> l))
  = List.map stringify
      (List.map (λ input,
         JObj [("utxoId",
                JObj [("txId", JStr (txId (utxoId input)));
                      ("outputIndex", JNum (outputIndex (utxoId input)))]);
               ("owner", JStr (owner input))]) l).
Proof.
  induction 1 as [|x l Hx _ IH]; [done|].
  cbn [List.map fmap list_fmap]. f_equal; [|apply IH].
  cbn [js_input js_utxoId Js.utxoId Js.owner Js.stringify stringify List.map
       fst snd].
  rewrite number_json_safe by done. done.
Qed.

(** The payload of the value is the payload of the typed transaction. *)
Lemma js_payload transaction pool :
  in_safe_range transaction pool →
  Js.createTransactionDataForSigning_ Number_toString
    (js_transaction transaction)
  = createTransactionDataForSigning_ transaction.
Proof.
  intros (Hts & Hins & _ & Houts).
  unfold Js.createTransactionDataForSigning_, createTransactionDataForSigning_,
    Js.unsignedTx, unsignedTx.
  cbn [js_transaction Js.id Js.inputs Js.outputs Js.timestamp].
  cbn [Js.stringify stringify List.map fst snd].
  by rewrite stringify_inputs, stringify_outputs, number_json_safe.
Qed.

Lemma js_inputErrors_inputs transaction pool l :
  in_safe_range transaction pool →
  Forall (λ input, Js.safe (outputIndex (utxoId input))) l →
  Js.inputErrors verify Number_toString (js_transaction transaction)
    (js_pool pool) (js_input <$> l)
  = inputErrors verify transaction pool l.
Proof.
  intros Hsafe. induction 1 as [|x l Hx _ IH]; [done|].
  rewrite fmap_cons, js_inputErrors_cons, inputErrors_cons, IH. f_equal.
  unfold Js.inputError, inputError.
  rewrite js_resolve_input, (js_payload _ pool) by done.
  unfold Js.notFoundError, notFoundError, Js.invalidSignatureError,
    invalidSignatureError.
  rewrite js_ref_text_input by done.
  by destruct (resolve pool x).
Qed.

Lemma js_negativeErrors_outputs (l : list TransactionOutput) :
  Js.magnitude (amount <$> l) < 2 ^ 53 →
  Js.negativeErrors Number_toString (js_output <$> l) = negativeErrors l.
Proof.
  induction l as [|x l IH]; [done|]. rewrite !fmap_cons. intros Hm.
  pose proof (magnitude_nonneg (amount <$> l)). simpl in Hm.
  rewrite js_negativeErrors_cons, negativeErrors_cons, IH by lia. f_equal.
  change (Js.amount (js_output x)) with (Js.of_Z (amount x)).
  unfold Js.le_zero. change Js.zero with (S754_zero false).
  rewrite leb_zero_exact by (unfold Js.safe; lia).
  unfold Js.negativeAmountError, negativeAmountError.
  change (Js.amount (js_output x)) with (Js.of_Z (amount x)).
  change (Js.recipient (js_output x)) with (recipient x).
  rewrite Number_toString_safe by (unfold Js.safe; lia). done.
Qed.

Lemma js_balanceErrors_totals transaction pool :
  in_safe_range transaction pool →
  Js.balanceErrors Number_toString
    (Js.inputTotal (js_pool pool) (js_input <$> inputs transaction))
    (Js.outputTotal (js_output <$> outputs transaction))
  = balanceErrors (inputTotal pool (inputs transaction))
                  (outputTotal (outputs transaction)).
Proof.
  intros (_ & Hins & Hi & Ho).
  unfold Js.inputTotal, Js.outputTotal.
  rewrite js_resolvedAmounts_inputs, js_amount_outputs, !total_exact by done.
  change (Js.sumZ (omap (λ input, utxo_amount <$> resolve pool input)
                        (inputs transaction)))
    with (inputTotal pool (inputs transaction)) in *.
  change (Js.sumZ (amount <$> outputs transaction))
    with (outputTotal (outputs transaction)) in *.
  pose proof (sumZ_magnitude
                (omap (λ input, utxo_amount <$> resolve pool input)
                      (inputs transaction))) as H1.
  pose proof (sumZ_magnitude (amount <$> outputs transaction)) as H2.
  change (Js.sumZ (omap (λ input, utxo_amount <$> resolve pool input)
                        (inputs transaction)))
    with (inputTotal pool (inputs transaction)) in H1.
  change (Js.sumZ (amount <$> outputs transaction))
    with (outputTotal (outputs transaction)) in H2.
  unfold Js.balanceErrors, balanceErrors, Js.neq.
  rewrite eqb_exact by (unfold Js.safe; lia).
  unfold Js.amountMismatchError, amountMismatchError.
  by rewrite !Number_toString_safe by (unfold Js.safe; lia).
Qed.

Lemma js_structuralErrors_transaction transaction :
  Js.structuralErrors (js_transaction transaction)
  = structuralErrors transaction.
Proof.
  unfold Js.structuralErrors, structuralErrors.
  cbn [js_transaction Js.inputs Js.outputs]. by rewrite !length_fmap.
Qed.

(** X15. On a transaction and a pool whose numbers are integers that doubles
    hold exactly, running totals included, the validator on JavaScript
    values returns the result of the validator on typed records with integer
    amounts, and so does the variant: there the first embedding loses
    nothing. *)
Theorem embeddings_agree_in_safe_range transaction pool :
  in_safe_range transaction pool →
  (Js.validateTransaction verify Number_toString
     (js_transaction transaction) (js_pool pool)).1
  = (validateTransaction verify transaction pool).1
  ∧ (Js.Variant.validateTransaction verify Number_toString
       (js_transaction transaction) (js_pool pool)).1
    = (Variant.validateTransaction verify transaction pool).1.
Proof.
  intros Hsafe. pose proof Hsafe as (Hts & Hins & Hi & Ho).
  rewrite js_validateTransaction_run, validateTransaction_run,
    js_variant_validateTransaction_run, variant_validateTransaction_run.
  cbn [fst].
  assert (Js.allErrors verify Number_toString (js_transaction transaction)
            (js_pool pool) = allErrors verify transaction pool) as ->.
  { unfold Js.allErrors, allErrors.
    rewrite js_structuralErrors_transaction.
    cbn [js_transaction Js.inputs Js.outputs].
    rewrite js_duplicateErrors_inputs by done.
    change (Js.mkTransaction (id transaction) (js_input <$> inputs transaction)
              (js_output <$> outputs transaction)
              (Js.of_Z (timestamp transaction)))
      with (js_transaction transaction).
    rewrite js_inputErrors_inputs by done.
    rewrite js_balanceErrors_totals by done.
    by rewrite js_negativeErrors_outputs. }
  assert (Js.variantErrors verify Number_toString (js_transaction transaction)
            (js_pool pool) = variantErrors verify transaction pool) as ->.
  { unfold Js.variantErrors, variantErrors.
    rewrite js_structuralErrors_transaction.
    cbn [js_transaction Js.inputs Js.outputs].
    change (Js.mkTransaction (id transaction) (js_input <$> inputs transaction)
              (js_output <$> outputs transaction)
              (Js.of_Z (timestamp transaction)))
      with (js_transaction transaction).
    rewrite js_inputErrors_inputs by done.
    by rewrite js_balanceErrors_totals. }
  done.
Qed.

End Agreement.

Lemma integer_text_safe z :
  Js.safe z → Js.integer_text (Js.of_Z z) = pretty z.
Proof. intros Hz. unfold Js.integer_text. by rewrite to_Z_of_Z. Qed.

Lemma embeddings_agree_in_safe_range_witness :
  (Js.validateTransaction toy_verify Js.integer_text
     (js_transaction txSingleSigned) (js_pool poolA)).1
  = (validateTransaction toy_verify txSingleSigned poolA).1
  ∧ (Js.Variant.validateTransaction toy_verify Js.integer_text
       (js_transaction txSingleSigned) (js_pool poolA)).1
    = (Variant.validateTransaction toy_verify txSingleSigned poolA).1.
Proof.
  apply (embeddings_agree_in_safe_range toy_verify Js.integer_text
           integer_text_safe txSingleSigned poolA).
  split; [vm_compute; reflexivity|].
  split; [|split; vm_compute; reflexivity].
  repeat constructor.
Defined.
